(** * jsdoc-generator: the extension entry point ([src/extension.ts])

    A shallow embedding of the editor glue of the JSDoc generator: the
    completion item offered while a comment opener is being typed, the
    completion provider that decides when to offer it, the three commands
    and the configuration accessor.

    Strings are sequences of UTF-16 code units, as in the source language.
    The regular expressions of the source are run by a small backtracking
    matcher written in the continuation style of the language standard.
    The editor host ([vscode]) is an external library: its value types
    ([Position], [Range], [TextDocument], [CompletionItem]) follow the
    documented behaviour of the host API. *)

From stdpp Require Import base numbers option list strings gmap.
From Stdlib Require Import ZArith NArith Lia.

Local Open Scope nat_scope.

(* ===================================================================== *)
(** ** Results of fallible host calls *)
(* ===================================================================== *)

Inductive JsError :=
  | IllegalArgument (msg : string)
  | TypeError (msg : string).

Inductive result (A : Type) :=
  | Ok (a : A)
  | Throw (e : JsError).
Arguments Ok {A} a.
Arguments Throw {A} e.

#[global] Instance result_ret : MRet result := fun _ a => Ok a.
#[global] Instance result_bind : MBind result := fun _ _ f m =>
  match m with
  | Ok a => f a
  | Throw e => Throw e
  end.

(* ===================================================================== *)
(** ** Strings of UTF-16 code units *)
(* ===================================================================== *)

Module JsString.

(** A string value is a finite sequence of 16-bit code units. *)
Abbreviation t := (list N).

(** Code units of an ASCII literal of the source. *)
Fixpoint lit (s : string) : t :=
  match s with
  | EmptyString => []
  | String a s' => Ascii.N_of_ascii a :: lit s'
  end.

(** Relative index of [String.prototype.slice]: a negative index counts
    from the end, and the result is clamped to [0, len]. *)
Definition slice_index (len : nat) (k : Z) : nat :=
  if (k <? 0)%Z then Z.to_nat (Z.max (Z.of_nat len + k) 0)
  else Nat.min (Z.to_nat k) len.

(** [s.slice(from, to)]; [to] omitted means the length of [s]. *)
Definition slice (s : t) (from : Z) (to : option Z) : t :=
  let len := length s in
  let a := slice_index len from in
  let b := match to with
           | Some e => slice_index len e
           | None => len
           end in
  take (b - a) (drop a s).

End JsString.

(* ===================================================================== *)
(** ** Regular expressions *)
(* ===================================================================== *)

Module RegExp.

Definition SLASH : N := 47%N.
Definition ASTERISK : N := 42%N.

(** The class [\s]: the white space and line terminator code points. *)
Definition is_space (c : N) : bool :=
  (   (c =? 9) || (c =? 10) || (c =? 11) || (c =? 12) || (c =? 13)
   || (c =? 32) || (c =? 160) || (c =? 5760)
   || ((8192 <=? c) && (c <=? 8202))
   || (c =? 8232) || (c =? 8233) || (c =? 8239) || (c =? 8287)
   || (c =? 12288) || (c =? 65279))%N.

Inductive CharClass :=
  | Lit (c : N)        (* an escaped literal such as [\/] or [\*] *)
  | Space.             (* [\s] *)

Definition mem (cs : CharClass) (c : N) : bool :=
  match cs with
  | Lit d => (c =? d)%N
  | Space => is_space c
  end.

Inductive Term :=
  | AssertBegin                (* [^], no multiline flag *)
  | AssertEnd                  (* [$], no multiline flag *)
  | One (cs : CharClass)       (* a single character *)
  | Star (cs : CharClass).     (* greedy [*] over a single character *)

Abbreviation Pattern := (list Term).

(** Greedy repetition with backtracking: consume one more character of the
    class when possible, and fall back to the continuation [k] at the
    current index when the longer attempt fails. [i] is the index of the
    first code unit of [s] in the whole input. *)
Fixpoint starLoop (cs : CharClass) (k : nat → JsString.t → option nat)
    (i : nat) (s : JsString.t) : option nat :=
  match s with
  | c :: s' =>
      if mem cs c then
        match starLoop cs k (S i) s' with
        | Some e => Some e
        | None => k i s
        end
      else k i s
  | [] => k i s
  end.

(** Match the terms in sequence from index [i]; the result is the end
    index of the match. *)
Fixpoint matchTerms (p : Pattern) (i : nat) (s : JsString.t) : option nat :=
  match p with
  | [] => Some i
  | AssertBegin :: p' => if decide (i = 0) then matchTerms p' i s else None
  | AssertEnd :: p' =>
      match s with
      | [] => matchTerms p' i s
      | _ :: _ => None
      end
  | One cs :: p' =>
      match s with
      | c :: s' => if mem cs c then matchTerms p' (S i) s' else None
      | [] => None
      end
  | Star cs :: p' => starLoop cs (matchTerms p') i s
  end.

(** Try every start index from [i] on, leftmost first. *)
Fixpoint search (p : Pattern) (i : nat) (s : JsString.t) : option (nat * nat) :=
  match matchTerms p i s with
  | Some e => Some (i, e)
  | None =>
      match s with
      | [] => None
      | _ :: s' => search p (S i) s'
      end
  end.

(** [RegExp.prototype.exec] without the global and sticky flags: the
    index of the leftmost match and the matched text. *)
Definition exec (p : Pattern) (input : JsString.t) : option (nat * JsString.t) :=
  match search p 0 input with
  | Some (i, e) => Some (i, take (e - i) (drop i input))
  | None => None
  end.

(** [input.match(p)] for a pattern without the global flag: element [0]
    of the result array, or [None] for [null]. *)
Definition match_ (input : JsString.t) (p : Pattern) : option JsString.t :=
  snd <$> exec p input.

End RegExp.

(* ===================================================================== *)
(** ** Value types of the editor host *)
(* ===================================================================== *)

Module Vscode.

(** A position: zero-based line and character, both non-negative. *)
Record Position := mkPosition { line : nat; character : nat }.

(** [new Position(line, character)] refuses a negative coordinate. *)
Definition Position_new (l c : Z) : result Position :=
  if (l <? 0)%Z then Throw (IllegalArgument "line must be non-negative")
  else if (c <? 0)%Z then Throw (IllegalArgument "character must be non-negative")
  else Ok (mkPosition (Z.to_nat l) (Z.to_nat c)).

(** [position.translate(lineDelta, characterDelta)]. *)
Definition translate (p : Position) (lineDelta characterDelta : Z) : result Position :=
  if decide (lineDelta = 0%Z ∧ characterDelta = 0%Z) then Ok p
  else Position_new (Z.of_nat (line p) + lineDelta)
                    (Z.of_nat (character p) + characterDelta).

Definition isBefore (a b : Position) : bool :=
  if line a <? line b then true
  else if line b <? line a then false
  else character a <? character b.

(** A range: [start] is never after [end_]. *)
Record Range := mkRange { start : Position; end_ : Position }.

(** [new Range(a, b)] orders its two ends. *)
Definition Range_new (a b : Position) : Range :=
  if isBefore a b then mkRange a b else mkRange b a.

(** [range.contains(position)]. *)
Definition contains (r : Range) (p : Position) : bool :=
  negb (isBefore p (start r)) && negb (isBefore (end_ r) p).

(** [range.isEmpty]. *)
Definition isEmpty (r : Range) : bool :=
  (line (start r) =? line (end_ r)) && (character (start r) =? character (end_ r)).

Inductive CompletionItemKind :=
  | Text | Method | Function_ | Constructor_ | Field | Variable_ | Class_
  | Interface | Module_ | Property | Unit | Value | Enum | Keyword | Snippet
  | Color | File | Reference | Folder | EnumMember | Constant | Struct
  | Event | Operator | TypeParameter | User | Issue.

Record Command := mkCommand { title : string; command : string }.

(** A completion item; a field left [None] is [undefined]. *)
Record CompletionItem := mkCompletionItem {
  label : string;
  kind : option CompletionItemKind;
  insertText : option string;
  sortText : option string;
  range : option Range;
  item_command : option Command
}.

(** [new CompletionItem(label, kind)]. *)
Definition CompletionItem_new (l : string) (k : CompletionItemKind) : CompletionItem :=
  {| label := l; kind := Some k; insertText := None; sortText := None;
     range := None; item_command := None |}.

Record TextLine := mkTextLine { lineNumber : nat; text : JsString.t }.

Record TextDocument := mkTextDocument {
  uri : string;
  languageId : string;
  lines : list JsString.t
}.

(** [document.lineAt(n)] for a line number [n]. *)
Definition lineAt (d : TextDocument) (n : nat) : result TextLine :=
  match lines d !! n with
  | Some l => Ok (mkTextLine n l)
  | None => Throw (IllegalArgument "Illegal value for `line`")
  end.

Record CancellationToken := mkToken { isCancellationRequested : bool }.

Record TextEditor := mkTextEditor { document : string; selection : Position }.

End Vscode.

Import Vscode.

(* ===================================================================== *)
(** ** The completion item ([GenerateJsdocCompletionItem]) *)
(* ===================================================================== *)

Section Patterns.
Import RegExp.

(** [/\/\**\s*$/]: a comment opener that ends the text. *)
Definition re_opener : Pattern :=
  [One (Lit SLASH); Star (Lit ASTERISK); Star Space; AssertEnd].

(** [/^\s*\**\//]: a comment closer that starts the text. *)
Definition re_closer : Pattern :=
  [AssertBegin; Star Space; Star (Lit ASTERISK); One (Lit SLASH)].

(** [/^\s*\/\*\*\s*$/]: the text is a JSDoc opener and nothing else. *)
Definition re_trigger : Pattern :=
  [AssertBegin; Star Space; One (Lit SLASH); One (Lit ASTERISK);
   One (Lit ASTERISK); Star Space; AssertEnd].
End Patterns.

(** [retrieveRange(line, position)], a method of the item under
    construction [this]. *)
Definition retrieveRange (this : CompletionItem) (line : JsString.t)
    (position : Position) : result Range :=
  let prefix :=
    RegExp.match_ (JsString.slice line 0 (Some (Z.of_nat (character position))))
                  re_opener in
  let suffix :=
    RegExp.match_ (JsString.slice line (Z.of_nat (character position)) None)
                  re_closer in
  start ← translate position 0
            (match prefix with
             | Some m => - Z.of_nat (length m)
             | None => 0
             end)%Z;
  stop ← translate position 0
           (match suffix with
            | Some m => Z.of_nat (length m)
            | None => 0
            end)%Z;
  mret (Range_new start stop).

Definition GENERATE_JSDOC : string := "jsdoc-generator.generateJsdoc".
Definition GENERATE_JSDOC_FILE : string := "jsdoc-generator.generateJsdocFile".
Definition GENERATE_JSDOC_FILES : string := "jsdoc-generator.generateJsdocFiles".

(** The constructor: the fields are assigned in the order of the source. *)
Definition GenerateJsdocCompletionItem_new (line : JsString.t)
    (position : Position) : result CompletionItem :=
  let this := CompletionItem_new "/** Autogenerated JSDoc */" Snippet in
  let this := {| label := label this; kind := kind this;
                 insertText := Some ""%string; sortText := sortText this;
                 range := range this; item_command := item_command this |} in
  let this := {| label := label this; kind := kind this;
                 insertText := insertText this;
                 sortText := Some (String Ascii.zero EmptyString);
                 range := range this; item_command := item_command this |} in
  r ← retrieveRange this line position;
  let this := {| label := label this; kind := kind this;
                 insertText := insertText this; sortText := sortText this;
                 range := Some r; item_command := item_command this |} in
  mret {| label := label this; kind := kind this;
          insertText := insertText this; sortText := sortText this;
          range := range this;
          item_command := Some (mkCommand "Generate JSDoc" GENERATE_JSDOC) |}.

(* ===================================================================== *)
(** ** The completion provider *)
(* ===================================================================== *)

(** [provideCompletionItems(document, position, token)]: [Ok None] is the
    [null] of the source. *)
Definition provideCompletionItems (document : TextDocument) (position : Position)
    (token : CancellationToken) : result (option (list CompletionItem)) :=
  tl ← lineAt document (line position);
  let line := text tl in
  let prefix := JsString.slice line 0 (Some (Z.of_nat (character position))) in
  match RegExp.match_ prefix re_trigger with
  | Some _ =>
      item ← GenerateJsdocCompletionItem_new line position;
      mret (Some [item])
  | None => mret None
  end.

(* ===================================================================== *)
(** ** The extension host and the module state *)
(* ===================================================================== *)

(** Values of the configuration store; [undefined] is the absence of a
    value. *)
Inductive JsValue :=
  | JsNull
  | JsBoolean (b : bool)
  | JsNumber (z : Z)
  | JsText (s : string).

(** What a command does that the user or the generator can observe. *)
Inductive Event :=
  | NewJsdocGenerator (g : nat)
  | CallGenerateJsdoc (g : nat) (editor : option TextEditor)
  | CallGenerateJsdocFile (g : nat) (editor : option TextEditor)
  | ShowErrorMessage (msg : string)
  | ShowWarningMessage (msg : string).

(** The state the extension runs in: the module variable [jsdocGenerator]
    ([None] is [undefined]; an instance is known by its identity), the
    host's active editor, configuration and documents, the next free object
    identity, and the events so far, oldest first. *)
Record World := mkWorld {
  jsdocGenerator : option nat;
  activeTextEditor : option TextEditor;
  configuration : gmap string JsValue;
  documents : gmap string (list JsString.t);
  next_object : nat;
  trace : list Event
}.

(** Computations over the world that may throw. *)
Definition M (A : Type) : Type := World → result A * World.

#[global] Instance M_ret : MRet M := fun _ a w => (Ok a, w).
#[global] Instance M_bind : MBind M := fun _ _ f m w =>
  match m w with
  | (Ok a, w') => f a w'
  | (Throw e, w') => (Throw e, w')
  end.

Definition emit (e : Event) : M unit := fun w =>
  (Ok tt, mkWorld (jsdocGenerator w) (activeTextEditor w) (configuration w)
                  (documents w) (next_object w) (trace w ++ [e])).

Definition read_jsdocGenerator : M (option nat) := fun w => (Ok (jsdocGenerator w), w).

Definition write_jsdocGenerator (g : nat) : M unit := fun w =>
  (Ok tt, mkWorld (Some g) (activeTextEditor w) (configuration w)
                  (documents w) (next_object w) (trace w)).

Definition window_activeTextEditor : M (option TextEditor) :=
  fun w => (Ok (activeTextEditor w), w).

Definition window_showErrorMessage (msg : string) : M unit :=
  emit (ShowErrorMessage msg).

Definition window_showWarningMessage (msg : string) : M unit :=
  emit (ShowWarningMessage msg).

Definition workspace_getConfiguration : M (gmap string JsValue) :=
  fun w => (Ok (configuration w), w).

(** [configuration.get(section, defaultValue)]: the value the section
    denotes, or the default. *)
Definition WorkspaceConfiguration_get (cfg : gmap string JsValue)
    (section : string) (defaultValue : JsValue) : JsValue :=
  match cfg !! section with
  | Some v => v
  | None => defaultValue
  end.

Definition edit_documents
    (f : gmap string (list JsString.t) → gmap string (list JsString.t)) : M unit :=
  fun w =>
  (Ok tt, mkWorld (jsdocGenerator w) (activeTextEditor w) (configuration w)
                  (f (documents w)) (next_object w) (trace w)).

(** Modelled from the spec: [new JsdocGenerator()]; the class lives in
    [src/JsdocGenerator.ts], which is not among the sources. Construction
    yields a fresh instance of the synthesizer and edits no document. *)
Definition JsdocGenerator_new : M nat := fun w =>
  (Ok (next_object w),
   mkWorld (jsdocGenerator w) (activeTextEditor w) (configuration w)
           (documents w) (S (next_object w))
           (trace w ++ [NewJsdocGenerator (next_object w)])).

Section Extension.

(** The two generation entry points of the missing class, as the edits
    they make to the documents: parameters of the development. *)
Variable generateJsdoc_edits generateJsdocFile_edits :
  nat → option TextEditor →
  gmap string (list JsString.t) → gmap string (list JsString.t).

(** [receiver.generateJsdoc(editor)]; a call on [undefined] throws. *)
Definition JsdocGenerator_generateJsdoc (receiver : option nat)
    (editor : option TextEditor) : M unit :=
  match receiver with
  | Some g =>
      emit (CallGenerateJsdoc g editor) ≫= λ _,
      edit_documents (generateJsdoc_edits g editor)
  | None => fun w => (Throw (TypeError "jsdocGenerator is undefined"), w)
  end.

(** [receiver.generateJsdocFile(editor)]. *)
Definition JsdocGenerator_generateJsdocFile (receiver : option nat)
    (editor : option TextEditor) : M unit :=
  match receiver with
  | Some g =>
      emit (CallGenerateJsdocFile g editor) ≫= λ _,
      edit_documents (generateJsdocFile_edits g editor)
  | None => fun w => (Throw (TypeError "jsdocGenerator is undefined"), w)
  end.

(** [lazyInstantiateJsdocGenerator()]. *)
Definition lazyInstantiateJsdocGenerator : M unit :=
  g ← read_jsdocGenerator;
  match g with
  | None => g' ← JsdocGenerator_new; write_jsdocGenerator g'
  | Some _ => mret tt
  end.

(** The handler of [jsdoc-generator.generateJsdoc]. *)
Definition generateJsdoc : M unit :=
  lazyInstantiateJsdocGenerator ≫= λ _,
  e ← window_activeTextEditor;
  match e with
  | Some _ =>
      g ← read_jsdocGenerator;
      editor ← window_activeTextEditor;
      JsdocGenerator_generateJsdoc g editor
  | None =>
      window_showErrorMessage "Unable to generate JSDoc: no editor has been selected."
  end.

(** The handler of [jsdoc-generator.generateJsdocFile]. *)
Definition generateJsdocFile : M unit :=
  lazyInstantiateJsdocGenerator ≫= λ _,
  e ← window_activeTextEditor;
  match e with
  | Some _ =>
      g ← read_jsdocGenerator;
      editor ← window_activeTextEditor;
      JsdocGenerator_generateJsdocFile g editor
  | None =>
      window_showErrorMessage "Unable to generate JSDoc: no editor has been selected."
  end.

(** The handler of [jsdoc-generator.generateJsdocFiles]. *)
Definition generateJsdocFiles : M unit :=
  lazyInstantiateJsdocGenerator ≫= λ _,
  window_showWarningMessage "This function is not available yet.".

Record DocumentFilter := mkFilter { scheme : string; language : string }.

(** What the host tells a provider about the request; the provider of the
    source declares three parameters and never sees it. *)
Record CompletionContext := mkContext { triggerCharacter : option N }.

Record CompletionProvider := mkProvider {
  selector : list DocumentFilter;
  provide : TextDocument → Position → CancellationToken → CompletionContext →
            result (option (list CompletionItem));
  triggerCharacters : list N
}.

(** The provider registered by [activate]. *)
Definition generateJsdocAutocompletion : CompletionProvider :=
  {| selector := [mkFilter "file" "javascript"; mkFilter "file" "typescript"];
     provide := λ document position token _,
                  provideCompletionItems document position token;
     triggerCharacters := [RegExp.SLASH; RegExp.ASTERISK] |}.

Record Subscriptions := mkSubscriptions {
  commands : list (string * M unit);
  providers : list CompletionProvider
}.

(** [activate(context)]: what ends up registered with the host. *)
Definition activate : Subscriptions :=
  {| commands := [(GENERATE_JSDOC, generateJsdoc);
                  (GENERATE_JSDOC_FILE, generateJsdocFile);
                  (GENERATE_JSDOC_FILES, generateJsdocFiles)];
     providers := [generateJsdocAutocompletion] |}.

End Extension.

(** [getConfig(configurationName, defaultValue)]. *)
Definition getConfig (configurationName : string) (defaultValue : JsValue) : M JsValue :=
  cfg ← workspace_getConfiguration;
  mret (WorkspaceConfiguration_get cfg configurationName defaultValue).

(* ===================================================================== *)
(** ** The completion item as an object of the runtime *)
(* ===================================================================== *)

(** The provider and the constructor once more, now with the state they
    run in made explicit: the world of the extension (module variable,
    host, trace) and the store of completion item objects. An object is
    known by its address, the index in the store; [new] appends a fresh
    object, and an assignment to a field of [this] updates the object at
    that address. Positions, ranges and strings are immutable values. *)
Record Runtime := mkRuntime {
  globals : World;
  objects : list CompletionItem
}.

Definition H (A : Type) : Type := Runtime → result A * Runtime.

#[global] Instance H_ret : MRet H := fun _ a s => (Ok a, s).
#[global] Instance H_bind : MBind H := fun _ _ f m s =>
  match m s with
  | (Ok a, s') => f a s'
  | (Throw e, s') => (Throw e, s')
  end.

(** The result of a call that touches no state. *)
Definition lift_result {A} (r : result A) : H A := fun s => (r, s).

(** [super(label, kind)]: a fresh item object; its address is returned. *)
Definition new_CompletionItem (l : string) (k : CompletionItemKind) : H nat :=
  fun s =>
  (Ok (length (objects s)),
   mkRuntime (globals s) (objects s ++ [CompletionItem_new l k])).

(** [this.field = value]: the object at the address is replaced by the
    updated one; there is no object to write to at a dangling address. *)
Definition assign (this : nat) (update : CompletionItem → CompletionItem) : H unit :=
  fun s =>
  match objects s !! this with
  | Some o => (Ok tt, mkRuntime (globals s) (<[this := update o]> (objects s)))
  | None => (Throw (TypeError "this is undefined"), s)
  end.

Definition with_insertText (v : string) (o : CompletionItem) : CompletionItem :=
  {| label := label o; kind := kind o; insertText := Some v;
     sortText := sortText o; range := range o; item_command := item_command o |}.

Definition with_sortText (v : string) (o : CompletionItem) : CompletionItem :=
  {| label := label o; kind := kind o; insertText := insertText o;
     sortText := Some v; range := range o; item_command := item_command o |}.

Definition with_range (v : Range) (o : CompletionItem) : CompletionItem :=
  {| label := label o; kind := kind o; insertText := insertText o;
     sortText := sortText o; range := Some v; item_command := item_command o |}.

Definition with_command (v : Command) (o : CompletionItem) : CompletionItem :=
  {| label := label o; kind := kind o; insertText := insertText o;
     sortText := sortText o; range := range o; item_command := Some v |}.

(** [this.retrieveRange(line, position)] on the object at [this]. *)
Definition retrieveRange_st (this : nat) (line : JsString.t)
    (position : Position) : H Range :=
  let prefix :=
    RegExp.match_ (JsString.slice line 0 (Some (Z.of_nat (character position))))
                  re_opener in
  let suffix :=
    RegExp.match_ (JsString.slice line (Z.of_nat (character position)) None)
                  re_closer in
  start ← lift_result (translate position 0
            (match prefix with
             | Some m => - Z.of_nat (length m)
             | None => 0
             end)%Z);
  stop ← lift_result (translate position 0
           (match suffix with
            | Some m => Z.of_nat (length m)
            | None => 0
            end)%Z);
  mret (Range_new start stop).

(** [new GenerateJsdocCompletionItem(line, position)]: the address of the
    constructed object. *)
Definition GenerateJsdocCompletionItem_st (line : JsString.t)
    (position : Position) : H nat :=
  this ← new_CompletionItem "/** Autogenerated JSDoc */" Snippet;
  assign this (with_insertText "") ≫= λ _,
  assign this (with_sortText (String Ascii.zero EmptyString)) ≫= λ _,
  r ← retrieveRange_st this line position;
  assign this (with_range r) ≫= λ _,
  assign this (with_command (mkCommand "Generate JSDoc" GENERATE_JSDOC)) ≫= λ _,
  mret this.

(** [provideCompletionItems(document, position, token)]: [null], or the
    array with the address of the one new item. *)
Definition provideCompletionItems_st (document : TextDocument) (position : Position)
    (token : CancellationToken) : H (option (list nat)) :=
  tl ← lift_result (lineAt document (Vscode.line position));
  let line := text tl in
  let prefix := JsString.slice line 0 (Some (Z.of_nat (character position))) in
  match RegExp.match_ prefix re_trigger with
  | Some _ =>
      item ← GenerateJsdocCompletionItem_st line position;
      mret (Some [item])
  | None => mret None
  end.

Import RegExp.

(* ===================================================================== *)
(** ** Vocabulary of the statements and of the proofs *)
(* ===================================================================== *)

(** Length of the longest prefix of [s] inside the class [cs]. *)
Fixpoint run (cs : CharClass) (s : JsString.t) : nat :=
  match s with
  | c :: s' => if mem cs c then S (run cs s') else 0
  | [] => 0
  end.

(** A continuation [k] rejects the class [cs] when it fails on every text
    that starts with a member of [cs]: the greedy loop then never has to
    give a character back. *)
Definition rejects (cs : CharClass) (k : nat → JsString.t → option nat) : Prop :=
  ∀ i c s, mem cs c = true → k i (c :: s) = None.

(** Every match ends inside the text it was run on. *)
Definition bounded (k : nat → JsString.t → option nat) : Prop :=
  ∀ i s e, k i s = Some e → i ≤ e ≤ i + length s.

(** A text of white space only. *)
Definition spaces (w : JsString.t) : Prop := Forall (λ c, is_space c = true) w.

(** A slash, then asterisks, then white space. *)
Definition opener_shape (m : JsString.t) : Prop :=
  ∃ k w, m = SLASH :: replicate k ASTERISK ++ w ∧ spaces w.

(** White space, then asterisks, then a slash. *)
Definition closer_shape (m : JsString.t) : Prop :=
  ∃ w k, m = w ++ replicate k ASTERISK ++ [SLASH] ∧ spaces w.

(** White space, the opener [/**], white space. *)
Definition trigger_shape (s : JsString.t) : Prop :=
  ∃ w1 w2, s = w1 ++ JsString.lit "/**" ++ w2 ∧ spaces w1 ∧ spaces w2.

(** The trigger pattern after its [^]. *)
Definition trigger_body : Pattern :=
  [Star Space; One (Lit SLASH); One (Lit ASTERISK); One (Lit ASTERISK);
   Star Space; AssertEnd].

(** Number of characters the opener pattern takes before the position. *)
Definition opener_length (line : JsString.t) (position : Position) : nat :=
  match match_ (take (character position) line) re_opener with
  | Some m => length m
  | None => 0
  end.

(** Likewise for the closer after the position. *)
Definition closer_length (line : JsString.t) (position : Position) : nat :=
  match match_ (drop (character position) line) re_closer with
  | Some m => length m
  | None => 0
  end.

(** The comment opener that ends the text [t], and the comment closer that
    starts it, in the words of the specification. *)
Definition trailing_opener (t m : JsString.t) : Prop :=
  (∃ before, t = before ++ m) ∧ opener_shape m.

Definition leading_closer (t m : JsString.t) : Prop :=
  (∃ after, t = m ++ after) ∧ closer_shape m.

(** The text of [line] that a range on that line covers. *)
Definition span_text (line : JsString.t) (r : Range) : JsString.t :=
  take (character (end_ r) - character (start r)) (drop (character (start r)) line).

(** The item the constructor builds for a line and a position. *)
Definition built_item (line : JsString.t) (position : Position) : CompletionItem :=
  {| label := "/** Autogenerated JSDoc */";
     kind := Some Snippet;
     insertText := Some ""%string;
     sortText := Some (String Ascii.zero EmptyString);
     range := Some (mkRange
                (mkPosition (Vscode.line position)
                            (character position - opener_length line position))
                (mkPosition (Vscode.line position)
                            (character position + closer_length line position)));
     item_command := Some (mkCommand "Generate JSDoc" GENERATE_JSDOC) |}.

(** Two small documents that share one line. *)
Definition sample_document : TextDocument :=
  mkTextDocument "file:///sample.ts" "typescript"
    [JsString.lit "class A {"; JsString.lit "  /** */"; JsString.lit "  m(a) {}"].

Definition other_document : TextDocument :=
  mkTextDocument "file:///other.js" "javascript"
    [JsString.lit "// header"; JsString.lit "  /** */"].

(** Classes of events: calls of a generation entry point, constructions
    of the generator, messages shown to the user. *)
Definition is_generation (e : Event) : bool :=
  match e with
  | CallGenerateJsdoc _ _ | CallGenerateJsdocFile _ _ => true
  | _ => false
  end.

Definition is_new (e : Event) : bool :=
  match e with
  | NewJsdocGenerator _ => true
  | _ => false
  end.

(** The events a computation adds to the trace of [w]. *)
Definition emitted {A} (c : M A) (w : World) : list Event :=
  drop (length (trace w)) (trace (c w).2).

(** What lazy instantiation does in [w]: the event of a construction when
    the variable is still [undefined], and the instance held afterwards. *)
Definition lazy_events (w : World) : list Event :=
  match jsdocGenerator w with
  | None => [NewJsdocGenerator (next_object w)]
  | Some _ => []
  end.

Definition lazy_instance (w : World) : nat :=
  match jsdocGenerator w with
  | Some g => g
  | None => next_object w
  end.

(** Number of generator instances constructed so far. *)
Definition instances_created (w : World) : nat :=
  length (List.filter is_new (trace w)).

Definition ERROR_NO_EDITOR : string :=
  "Unable to generate JSDoc: no editor has been selected.".

Definition WARNING_NOT_AVAILABLE : string := "This function is not available yet.".

(** A session of the host: commands invoked by their name, and changes of
    the active editor in between. *)
Inductive HostStep :=
  | Invoke (name : string)
  | Focus (editor : option TextEditor).

(** The handler registered under a name, if any. *)
Fixpoint find_command (name : string) (cs : list (string * M unit)) : option (M unit) :=
  match cs with
  | [] => None
  | (n, h) :: cs' => if decide (n = name) then Some h else find_command name cs'
  end.

Section Sessions.
Variable f g : nat → option TextEditor →
  gmap string (list JsString.t) → gmap string (list JsString.t).

Definition host_step (w : World) (s : HostStep) : World :=
  match s with
  | Invoke name =>
      match find_command name (commands (activate f g)) with
      | Some h => (h w).2
      | None => w
      end
  | Focus editor =>
      mkWorld (jsdocGenerator w) editor (configuration w) (documents w)
              (next_object w) (trace w)
  end.

Definition session (steps : list HostStep) (w : World) : World :=
  foldl host_step w steps.

End Sessions.

(** The extension right after activation. *)
Definition initial_world (editor : option TextEditor) (cfg : gmap string JsValue)
    (docs : gmap string (list JsString.t)) : World :=
  mkWorld None editor cfg docs 0 [].

(** Two generators for the examples: one edits nothing, one rewrites the
    document of the editor. *)
Definition no_edits : nat → option TextEditor →
    gmap string (list JsString.t) → gmap string (list JsString.t) :=
  λ _ _ docs, docs.

Definition add_line : nat → option TextEditor →
    gmap string (list JsString.t) → gmap string (list JsString.t) :=
  λ _ editor docs,
    match editor with
    | Some e => <[document e := [JsString.lit "/** */"]]> docs
    | None => docs
    end.

Definition sample_editor : TextEditor :=
  mkTextEditor "file:///sample.ts" (mkPosition 1 5).

(** Unfold the operations of [M] in the goal. *)
Ltac run_M :=
  cbv [mbind M_bind mret M_ret window_activeTextEditor
       read_jsdocGenerator write_jsdocGenerator JsdocGenerator_new
       JsdocGenerator_generateJsdoc JsdocGenerator_generateJsdocFile
       window_showErrorMessage window_showWarningMessage edit_documents emit
       workspace_getConfiguration];
  cbn.

Definition is_message (e : Event) : bool :=
  match e with
  | ShowErrorMessage _ | ShowWarningMessage _ => true
  | _ => false
  end.

(** Every registered handler keeps the instance once there is one, and
    constructs exactly one when there is none. *)
Definition handler_ok (h : M unit) : Prop :=
  ∀ w, jsdocGenerator (h w).2 = Some (lazy_instance w) ∧
       instances_created (h w).2
         = instances_created w + length (lazy_events w).

(** The state of the module along a session: no instance and none
    constructed, or an instance and exactly one constructed. *)
Definition one_instance (w : World) : Prop :=
  match jsdocGenerator w with
  | None => instances_created w = 0
  | Some _ => instances_created w = 1
  end.

(** The text the opener pattern matches before the position, and the
    text the closer pattern matches after it; empty without a match. *)
Definition opener_text (line : JsString.t) (position : Position) : JsString.t :=
  default [] (match_ (take (character position) line) re_opener).

Definition closer_text (line : JsString.t) (position : Position) : JsString.t :=
  default [] (match_ (drop (character position) line) re_closer).

(** The characters a comment delimiter is made of. *)
Definition delimiter_char (c : N) : Prop :=
  c = SLASH ∨ c = ASTERISK ∨ is_space c = true.

(** An event that names a generator instance names the instance [i]. *)
Definition on_instance (i : nat) (e : Event) : Prop :=
  match e with
  | NewJsdocGenerator g | CallGenerateJsdoc g _ | CallGenerateJsdocFile g _ => g = i
  | _ => True
  end.

(** A step of the host that gives no editor the focus. *)
Definition stays_unfocused (s : HostStep) : Prop :=
  match s with
  | Focus (Some _) => False
  | _ => True
  end.

(** A world without an active editor that holds the sample document, and
    a run of every command, with one the extension does not register. *)
Definition unfocused_world : World :=
  initial_world None ∅ {["file:///sample.ts"%string := lines sample_document]}.

Definition unfocused_steps : list HostStep :=
  [Invoke GENERATE_JSDOC; Invoke GENERATE_JSDOC_FILE; Focus None;
   Invoke GENERATE_JSDOC_FILES; Invoke "editor.action.formatDocument"].

(** The state of the module and the trace along a session that starts
    right after activation. *)
Definition session_state (w : World) : Prop :=
  (jsdocGenerator w = None ∧ next_object w = 0 ∧ trace w = []) ∨
  (jsdocGenerator w = Some 0 ∧
   ∃ rest, trace w = NewJsdocGenerator 0 :: rest ∧
           Forall (λ e, is_new e = false ∧ on_instance 0 e) rest).

(** Two runtimes that differ in every component: one fresh, one that
    already holds a generator, an item object and a trace. *)
Definition fresh_runtime : Runtime := mkRuntime (initial_world None ∅ ∅) [].

Definition used_runtime : Runtime :=
  mkRuntime
    (mkWorld (Some 0) (Some sample_editor)
       {["jsdoc-generator.author"%string := JsText "me"]} ∅ 1
       [NewJsdocGenerator 0; ShowWarningMessage WARNING_NOT_AVAILABLE])
    [CompletionItem_new "earlier item" Text].

(* ===================================================================== *)
(** ** Facts about the matcher *)
(* ===================================================================== *)

Lemma run_le cs s : run cs s ≤ length s.
Proof. induction s as [|c s IH]; simpl; [lia|]. destruct (mem cs c); simpl; lia. Qed.

Lemma length_take_run cs s : length (take (run cs s) s) = run cs s.
Proof. rewrite length_take. pose proof (run_le cs s). lia. Qed.

Lemma run_take cs s : Forall (λ c, mem cs c = true) (take (run cs s) s).
Proof.
  induction s as [|c s IH]; simpl; [constructor|].
  destruct (mem cs c) eqn:E; simpl; [by constructor | constructor].
Qed.

(** The run of a string that splits into class members and a rest that
    does not start with one. *)
Lemma run_app cs a b :
  Forall (λ c, mem cs c = true) a →
  (∀ c t, b = c :: t → mem cs c = false) →
  run cs (a ++ b) = length a.
Proof.
  intros Ha Hb. induction Ha as [|c a Hc _ IH]; simpl.
  - destruct b as [|c t]; [done|]. simpl. by rewrite (Hb c t).
  - by rewrite Hc, IH.
Qed.

Lemma starLoop_greedy cs k :
  rejects cs k →
  ∀ s i, starLoop cs k i s = k (i + run cs s) (drop (run cs s) s).
Proof.
  intros Hk s. induction s as [|c s IH]; intros i; simpl.
  - by rewrite Nat.add_0_r.
  - destruct (mem cs c) eqn:E; simpl.
    + rewrite IH, (Hk i c s E).
      replace (i + S (run cs s)) with (S i + run cs s) by lia.
      by destruct (k _ _).
    + by rewrite Nat.add_0_r.
Qed.

Lemma search_unfold p i s :
  search p i s =
    match matchTerms p i s with
    | Some e => Some (i, e)
    | None =>
        match s with
        | [] => None
        | _ :: s' => search p (S i) s'
        end
    end.
Proof. by destruct s. Qed.

Lemma starLoop_bounded cs k : bounded k → bounded (starLoop cs k).
Proof.
  intros Hk i s. revert i. induction s as [|c s IH]; intros i e; simpl.
  - apply Hk.
  - destruct (mem cs c).
    + destruct (starLoop cs k (S i) s) as [e'|] eqn:E.
      * intros [= <-]. apply IH in E. lia.
      * intros H. apply Hk in H. simpl in H. lia.
    + intros H. apply Hk in H. simpl in H. lia.
Qed.

Lemma matchTerms_bounded p : bounded (matchTerms p).
Proof.
  induction p as [|t p IH]; intros i s e; simpl.
  - intros [= <-]. lia.
  - destruct t as [| |cs|cs].
    + case_decide; [apply IH | done].
    + destruct s; [apply IH | done].
    + destruct s as [|c s]; [done|]. destruct (mem cs c); [|done].
      intros H. apply IH in H. simpl. lia.
    + by apply starLoop_bounded.
Qed.

Lemma search_bounded p s i j e :
  search p i s = Some (j, e) → i ≤ j ∧ j ≤ e ∧ e ≤ i + length s.
Proof.
  revert i. induction s as [|c s IH]; intros i; simpl.
  - destruct (matchTerms p i []) eqn:E; [|done].
    intros [= <- <-]. apply matchTerms_bounded in E. simpl in E. lia.
  - destruct (matchTerms p i (c :: s)) eqn:E.
    + intros [= <- <-]. apply matchTerms_bounded in E. simpl in E. lia.
    + intros H. apply IH in H. lia.
Qed.

(** The matched text is never longer than the input. *)
Lemma match_length input p m :
  match_ input p = Some m → length m ≤ length input.
Proof.
  unfold match_, exec. destruct (search p 0 input) as [[j e]|] eqn:E; [|done].
  simpl. intros [= <-]. apply search_bounded in E.
  rewrite length_take, length_drop. lia.
Qed.

(* ===================================================================== *)
(** ** What the three patterns match *)
(* ===================================================================== *)

Lemma space_not_asterisk c : is_space c = true → (c =? ASTERISK)%N = false.
Proof.
  intros H. destruct (N.eqb_spec c ASTERISK) as [->|]; [|done].
  by vm_compute in H.
Qed.

Lemma space_not_slash c : is_space c = true → (c =? SLASH)%N = false.
Proof.
  intros H. destruct (N.eqb_spec c SLASH) as [->|]; [|done].
  by vm_compute in H.
Qed.

Lemma asterisk_not_space c : (c =? ASTERISK)%N = true → is_space c = false.
Proof. intros ->%N.eqb_eq. done. Qed.

Lemma asterisk_not_slash c : (c =? ASTERISK)%N = true → (c =? SLASH)%N = false.
Proof. intros ->%N.eqb_eq. done. Qed.

Lemma Forall_lit_replicate x (l : JsString.t) :
  Forall (λ c, mem (Lit x) c = true) l → l = replicate (length l) x.
Proof.
  induction 1 as [|c l Hc _ IH]; simpl; [done|].
  apply N.eqb_eq in Hc. by rewrite Hc, <- IH.
Qed.

Lemma Forall_replicate_lit x k :
  Forall (λ c, mem (Lit x) c = true) (replicate k x).
Proof. apply Forall_replicate. simpl. apply N.eqb_refl. Qed.

Lemma spaces_run w : spaces w → run Space w = length w ∧ drop (run Space w) w = [].
Proof.
  intros Hw. assert (run Space w = length w) as E.
  { rewrite <- (app_nil_r w) at 1. by apply run_app. }
  rewrite E. split; [done | apply drop_all].
Qed.

Lemma spaces_no_slash w : spaces w → SLASH ∉ w.
Proof.
  unfold spaces. intros Hw Hin. rewrite Forall_forall in Hw. by apply Hw in Hin.
Qed.

Lemma spaces_no_asterisk w c t : spaces w → w = c :: t → mem (Lit ASTERISK) c = false.
Proof.
  unfold spaces. intros Hw ->. apply Forall_cons in Hw as [Hc _].
  by apply space_not_asterisk.
Qed.

(** *** The opener pattern at a fixed start index *)

Lemma rejects_asterisk_spaces_end :
  rejects (Lit ASTERISK) (matchTerms [Star Space; AssertEnd]).
Proof. intros i c s Hc. simpl in *. by rewrite (asterisk_not_space c Hc). Qed.

Lemma rejects_space_end : rejects Space (matchTerms [AssertEnd]).
Proof. by intros i c s _. Qed.

Lemma matchTerms_opener i s :
  matchTerms re_opener i s =
    match s with
    | c :: s' =>
        if (c =? SLASH)%N then
          let s1 := drop (run (Lit ASTERISK) s') s' in
          match drop (run Space s1) s1 with
          | [] => Some (S i + run (Lit ASTERISK) s' + run Space s1)
          | _ :: _ => None
          end
        else None
    | [] => None
    end.
Proof.
  destruct s as [|c s']; [done|].
  change (matchTerms re_opener i (c :: s')) with
    (if (c =? SLASH)%N
     then starLoop (Lit ASTERISK) (matchTerms [Star Space; AssertEnd]) (S i) s'
     else None).
  destruct (c =? SLASH)%N; [|done].
  rewrite (starLoop_greedy _ _ rejects_asterisk_spaces_end).
  change (matchTerms [Star Space; AssertEnd]) with
    (starLoop Space (matchTerms [AssertEnd])).
  rewrite (starLoop_greedy _ _ rejects_space_end).
  simpl. by destruct (drop _ _).
Qed.

Lemma matchTerms_opener_iff i s e :
  matchTerms re_opener i s = Some e ↔ opener_shape s ∧ e = i + length s.
Proof.
  rewrite matchTerms_opener. split.
  - destruct s as [|c s']; [done|].
    destruct (N.eqb_spec c SLASH) as [->|]; [|done]. simpl.
    pose proof (length_take_run (Lit ASTERISK) s') as L1.
    pose proof (take_drop (run (Lit ASTERISK) s') s') as T1.
    pose proof (run_take (Lit ASTERISK) s') as F1.
    set (r1 := run (Lit ASTERISK) s') in *. set (s1 := drop r1 s') in *.
    pose proof (length_take_run Space s1) as L2.
    pose proof (take_drop (run Space s1) s1) as T2.
    pose proof (run_take Space s1) as F2.
    set (r2 := run Space s1) in *.
    destruct (drop r2 s1) eqn:E; [|done]. intros [= <-].
    rewrite app_nil_r in T2. rewrite T2 in L2, F2.
    apply Forall_lit_replicate in F1. rewrite L1 in F1.
    split.
    + exists r1, s1. split; [|done]. by rewrite <- F1, T1.
    + rewrite <- T1 at 1. simpl. rewrite length_app, L1, L2. lia.
  - intros [(k & w & -> & Hw) ->].
    rewrite N.eqb_refl. simpl.
    assert (run (Lit ASTERISK) (replicate k ASTERISK ++ w) = k) as ->.
    { rewrite run_app; [apply length_replicate | apply Forall_replicate_lit |].
      intros c t. by apply spaces_no_asterisk. }
    rewrite drop_app_length' by (by rewrite length_replicate).
    destruct (spaces_run w Hw) as [-> ->].
    rewrite length_app, length_replicate. f_equal. lia.
Qed.

Lemma opener_shape_head m : opener_shape m → ∃ t, m = SLASH :: t ∧ SLASH ∉ t.
Proof.
  intros (k & w & -> & Hw). eexists; split; [done|].
  rewrite elem_of_app. intros [Hin|Hin].
  - by apply elem_of_replicate in Hin as [? _].
  - by apply spaces_no_slash in Hin.
Qed.

(** *** The opener pattern searched through a text *)

Lemma search_opener_complete pre m i :
  opener_shape m →
  search re_opener i (pre ++ m) = Some (i + length pre, i + length pre + length m).
Proof.
  intros Hm. revert i. induction pre as [|c pre IH]; intros i;
    rewrite search_unfold.
  - rewrite (proj2 (matchTerms_opener_iff i ([] ++ m) _) (conj Hm eq_refl)).
    simpl. do 2 f_equal; lia.
  - destruct (matchTerms re_opener i ((c :: pre) ++ m)) as [e|] eqn:E.
    + apply matchTerms_opener_iff in E as [Hs _].
      apply opener_shape_head in Hs as (t & [= -> <-] & Hnot).
      apply opener_shape_head in Hm as (t' & -> & _).
      exfalso. apply Hnot. rewrite elem_of_app. right. by left.
    + simpl. rewrite IH. do 2 f_equal; lia.
Qed.

Lemma search_opener_sound s i j e :
  search re_opener i s = Some (j, e) →
  ∃ pre m, s = pre ++ m ∧ opener_shape m ∧ j = i + length pre ∧ e = i + length s.
Proof.
  revert i. induction s as [|c s IH]; intros i; rewrite search_unfold.
  - destruct (matchTerms re_opener i []) as [e'|] eqn:E; [|done].
    by apply matchTerms_opener_iff in E as [(? & ? & ? & _) _].
  - destruct (matchTerms re_opener i (c :: s)) as [e'|] eqn:E.
    + intros [= <- <-]. apply matchTerms_opener_iff in E as [Hs ->].
      exists [], (c :: s). simpl. repeat split; [done|lia].
    + intros H. apply IH in H as (pre & m & -> & Hm & -> & ->).
      exists (c :: pre), m. simpl. repeat split; [done|lia|lia].
Qed.

(** The opener match of a text is its one suffix of opener shape. *)
Lemma match_opener_iff s m :
  match_ s re_opener = Some m ↔ (∃ pre, s = pre ++ m) ∧ opener_shape m.
Proof.
  unfold match_, exec. split.
  - destruct (search re_opener 0 s) as [[j e]|] eqn:E; [|done].
    simpl. intros [= <-].
    apply search_opener_sound in E as (pre & m & -> & Hm & -> & ->).
    simpl. rewrite drop_app_length.
    replace (length (pre ++ m) - length pre) with (length m)
      by (rewrite length_app; lia).
    rewrite firstn_all. eauto.
  - intros [[pre ->] Hm]. rewrite (search_opener_complete pre m 0 Hm). simpl.
    rewrite drop_app_length.
    replace (length pre + length m - length pre) with (length m) by lia.
    by rewrite firstn_all.
Qed.

(** *** Patterns anchored at the start of the text *)

Lemma search_anchored p s i : i ≠ 0 → search (AssertBegin :: p) i s = None.
Proof.
  revert i. induction s as [|c s IH]; intros i Hi; rewrite search_unfold;
    simpl matchTerms; case_decide; try done.
  apply IH. lia.
Qed.

Lemma search_anchored_0 p s :
  search (AssertBegin :: p) 0 s = (λ e, (0, e)) <$> matchTerms p 0 s.
Proof.
  rewrite search_unfold. simpl matchTerms.
  destruct (matchTerms p 0 s); [done|]. destruct s; [done|].
  by apply search_anchored.
Qed.

Lemma match_anchored s p m :
  match_ s (AssertBegin :: p) = Some m ↔
  ∃ e, matchTerms p 0 s = Some e ∧ m = take e s.
Proof.
  unfold match_, exec. rewrite search_anchored_0.
  destruct (matchTerms p 0 s) as [e|]; simpl.
  - rewrite Nat.sub_0_r. split.
    + intros [= <-]. eauto.
    + by intros (e' & [= <-] & ->).
  - split; [done | by intros (? & ? & _)].
Qed.

(** *** The closer pattern *)

Lemma rejects_space_asterisk_slash :
  rejects Space (matchTerms [Star (Lit ASTERISK); One (Lit SLASH)]).
Proof.
  intros i c s Hc. simpl in *.
  by rewrite (space_not_asterisk c Hc), (space_not_slash c Hc).
Qed.

Lemma rejects_asterisk_slash : rejects (Lit ASTERISK) (matchTerms [One (Lit SLASH)]).
Proof. intros i c s Hc. simpl in *. by rewrite (asterisk_not_slash c Hc). Qed.

Lemma asterisks_slash_head k post c t :
  replicate k ASTERISK ++ SLASH :: post = c :: t →
  mem Space c = false ∧ (k = 0 ∨ mem (Lit ASTERISK) c = true).
Proof. destruct k; simpl; intros [= <- _]; split; auto. Qed.

Lemma matchTerms_closer_iff i s e :
  matchTerms [Star Space; Star (Lit ASTERISK); One (Lit SLASH)] i s = Some e ↔
  ∃ m post, s = m ++ post ∧ closer_shape m ∧ e = i + length m.
Proof.
  change (matchTerms [Star Space; Star (Lit ASTERISK); One (Lit SLASH)]) with
    (starLoop Space (matchTerms [Star (Lit ASTERISK); One (Lit SLASH)])).
  rewrite (starLoop_greedy _ _ rejects_space_asterisk_slash).
  change (matchTerms [Star (Lit ASTERISK); One (Lit SLASH)]) with
    (starLoop (Lit ASTERISK) (matchTerms [One (Lit SLASH)])).
  rewrite (starLoop_greedy _ _ rejects_asterisk_slash).
  split.
  - pose proof (length_take_run Space s) as L1.
    pose proof (take_drop (run Space s) s) as T1.
    pose proof (run_take Space s) as F1.
    set (a := run Space s) in *. set (s1 := drop a s) in *.
    pose proof (length_take_run (Lit ASTERISK) s1) as L2.
    pose proof (take_drop (run (Lit ASTERISK) s1) s1) as T2.
    pose proof (run_take (Lit ASTERISK) s1) as F2.
    set (b := run (Lit ASTERISK) s1) in *.
    destruct (drop b s1) as [|c t] eqn:E; [done|]. simpl.
    destruct (N.eqb_spec c SLASH) as [->|]; [|done]. intros [= <-].
    apply Forall_lit_replicate in F2. rewrite L2 in F2.
    exists (take a s ++ replicate b ASTERISK ++ [SLASH]), t. repeat split.
    + rewrite <- T1 at 1. rewrite <- T2, F2. by rewrite <- !app_assoc.
    + by exists (take a s), b.
    + rewrite !length_app, L1, length_replicate. simpl. lia.
  - intros (m & post & -> & (w & k & -> & Hw) & ->).
    rewrite <- !app_assoc. simpl.
    assert (run Space (w ++ replicate k ASTERISK ++ SLASH :: post) = length w) as ->.
    { apply run_app; [done|]. intros c t H.
      by apply asterisks_slash_head in H as [? _]. }
    rewrite drop_app_length.
    assert (run (Lit ASTERISK) (replicate k ASTERISK ++ SLASH :: post) = k) as ->.
    { rewrite run_app; [apply length_replicate | apply Forall_replicate_lit |].
      by intros c t [= <- _]. }
    rewrite drop_app_length' by (by rewrite length_replicate).
    simpl. f_equal. rewrite !length_app, length_replicate. simpl. lia.
Qed.

(** The closer match of a text is its one prefix of closer shape. *)
Lemma match_closer_iff s m :
  match_ s re_closer = Some m ↔ (∃ post, s = m ++ post) ∧ closer_shape m.
Proof.
  unfold re_closer. rewrite match_anchored. split.
  - intros (e & He & ->).
    apply matchTerms_closer_iff in He as (m & post & -> & Hm & ->).
    simpl. rewrite take_app_length. eauto.
  - intros [[post ->] Hm]. exists (length m). split.
    + apply matchTerms_closer_iff. by exists m, post.
    + by rewrite take_app_length.
Qed.

(** *** The trigger pattern *)

Lemma matchTerms_spaces_end i s e :
  matchTerms [Star Space; AssertEnd] i s = Some e ↔ spaces s ∧ e = i + length s.
Proof.
  change (matchTerms [Star Space; AssertEnd]) with
    (starLoop Space (matchTerms [AssertEnd])).
  rewrite (starLoop_greedy _ _ rejects_space_end). split.
  - pose proof (length_take_run Space s) as L1.
    pose proof (take_drop (run Space s) s) as T1.
    pose proof (run_take Space s) as F1.
    destruct (drop (run Space s) s) eqn:E; [|done]. simpl. intros [= <-].
    rewrite app_nil_r in T1. rewrite T1 in L1, F1. by rewrite L1.
  - intros [Hs ->]. by destruct (spaces_run s Hs) as [-> ->].
Qed.

Lemma rejects_space_trigger : rejects Space (matchTerms (tail trigger_body)).
Proof. intros i c s Hc. simpl in *. by rewrite (space_not_slash c Hc). Qed.

Lemma matchTerms_trigger_iff s :
  is_Some (matchTerms trigger_body 0 s) ↔ trigger_shape s.
Proof.
  change (matchTerms trigger_body) with
    (starLoop Space (matchTerms (tail trigger_body))).
  rewrite (starLoop_greedy _ _ rejects_space_trigger). split.
  - pose proof (take_drop (run Space s) s) as T1.
    pose proof (run_take Space s) as F1.
    destruct (drop (run Space s) s) as [|c1 [|c2 [|c3 s3]]] eqn:E;
      simpl; try by intros [? [=]].
    + destruct (c1 =? SLASH)%N; by intros [? [=]].
    + destruct (c1 =? SLASH)%N; [|by intros [? [=]]].
      destruct (c2 =? ASTERISK)%N; by intros [? [=]].
    + destruct (N.eqb_spec c1 SLASH) as [->|]; [|by intros [? [=]]].
      destruct (N.eqb_spec c2 ASTERISK) as [->|]; [|by intros [? [=]]].
      destruct (N.eqb_spec c3 ASTERISK) as [->|]; [|by intros [? [=]]].
      intros [e He].
      change (matchTerms [Star Space; AssertEnd] (S (S (S (0 + run Space s)))) s3
              = Some e) in He.
      apply matchTerms_spaces_end in He as [Hs3 _].
      exists (take (run Space s) s), s3. by rewrite <- T1 at 1.
  - intros (w1 & w2 & -> & H1 & H2).
    assert (run Space (w1 ++ JsString.lit "/**" ++ w2) = length w1) as ->.
    { apply run_app; [done|]. by intros c t [= <- _]. }
    rewrite drop_app_length.
    change (is_Some (matchTerms [Star Space; AssertEnd] (S (S (S (0 + length w1)))) w2)).
    eexists. apply matchTerms_spaces_end. eauto.
Qed.

(** The provider's test succeeds exactly on a text of trigger shape. *)
Lemma match_trigger_iff s :
  is_Some (match_ s re_trigger) ↔ trigger_shape s.
Proof.
  rewrite <- matchTerms_trigger_iff. split.
  - intros [m Hm]. apply match_anchored in Hm as (e & He & _). by exists e.
  - intros [e He]. exists (take e s). apply match_anchored. eauto.
Qed.

(* ===================================================================== *)
(** ** The range of the completion item *)
(* ===================================================================== *)

Lemma slice_before (s : JsString.t) n :
  JsString.slice s 0 (Some (Z.of_nat n)) = take n s.
Proof.
  unfold JsString.slice, JsString.slice_index.
  rewrite (proj2 (Z.ltb_ge 0 0)) by lia.
  rewrite (proj2 (Z.ltb_ge (Z.of_nat n) 0)) by lia.
  rewrite Nat2Z.id. simpl. rewrite Nat.sub_0_r, drop_0.
  destruct (Nat.le_gt_cases n (length s)).
  - by rewrite Nat.min_l.
  - rewrite Nat.min_r by lia. by rewrite !take_ge by lia.
Qed.

Lemma slice_after (s : JsString.t) n :
  JsString.slice s (Z.of_nat n) None = drop n s.
Proof.
  unfold JsString.slice, JsString.slice_index.
  rewrite (proj2 (Z.ltb_ge (Z.of_nat n) 0)) by lia.
  rewrite Nat2Z.id.
  rewrite take_ge by (rewrite length_drop; lia).
  destruct (Nat.le_gt_cases n (length s)).
  - by rewrite Nat.min_l.
  - rewrite Nat.min_r by lia. by rewrite !drop_ge by lia.
Qed.

Lemma translate_back p k :
  k ≤ character p →
  translate p 0 (- Z.of_nat k) = Ok (mkPosition (line p) (character p - k)).
Proof.
  intros Hk. unfold translate, Position_new. destruct p as [l c]. simpl in *.
  case_decide as H.
  - assert (k = 0) as -> by lia. by rewrite Nat.sub_0_r.
  - rewrite (proj2 (Z.ltb_ge _ 0)) by lia.
    rewrite (proj2 (Z.ltb_ge _ 0)) by lia.
    do 2 f_equal; lia.
Qed.

Lemma translate_forth p k :
  translate p 0 (Z.of_nat k) = Ok (mkPosition (line p) (character p + k)).
Proof.
  unfold translate, Position_new. destruct p as [l c]. simpl.
  case_decide as H.
  - assert (k = 0) as -> by lia. by rewrite Nat.add_0_r.
  - rewrite (proj2 (Z.ltb_ge _ 0)) by lia.
    rewrite (proj2 (Z.ltb_ge _ 0)) by lia.
    do 2 f_equal; lia.
Qed.

Lemma translate_zero p : translate p 0 0 = Ok p.
Proof. unfold translate. case_decide as H; [done|]. by destruct H. Qed.

Lemma Range_new_ordered l a b :
  a ≤ b →
  Range_new (mkPosition l a) (mkPosition l b) = mkRange (mkPosition l a) (mkPosition l b).
Proof.
  intros Hab. unfold Range_new, isBefore. simpl.
  rewrite Nat.ltb_irrefl.
  destruct (Nat.ltb_spec a b); [done|].
  by assert (a = b) as -> by lia.
Qed.

Lemma opener_length_le line position :
  opener_length line position ≤ Nat.min (character position) (length line).
Proof.
  unfold opener_length.
  destruct (match_ _ re_opener) as [m|] eqn:E; [|lia].
  apply match_length in E. by rewrite length_take in E.
Qed.

Lemma closer_length_le line position :
  closer_length line position ≤ length line - character position.
Proof.
  unfold closer_length.
  destruct (match_ _ re_closer) as [m|] eqn:E; [|lia].
  apply match_length in E. by rewrite length_drop in E.
Qed.

(** [retrieveRange] never throws, whatever the item, line and position. *)
Lemma retrieveRange_eq this line position :
  retrieveRange this line position =
    Ok (mkRange
          (mkPosition (Vscode.line position)
                      (character position - opener_length line position))
          (mkPosition (Vscode.line position)
                      (character position + closer_length line position))).
Proof.
  unfold retrieveRange. rewrite slice_before, slice_after.
  pose proof (opener_length_le line position) as Ho.
  unfold opener_length, closer_length in *. destruct position as [l c].
  destruct (match_ (take _ _) re_opener) as [m|];
    destruct (match_ (drop _ _) re_closer) as [m'|];
    rewrite ?translate_zero, ?translate_forth, ?translate_back by (simpl in *; lia);
    simpl; rewrite ?Nat.sub_0_r, ?Nat.add_0_r;
    f_equal; apply Range_new_ordered; lia.
Qed.

(** *** The source on small inputs *)

Example retrieveRange_between_delimiters :
  retrieveRange (CompletionItem_new "" Text) (JsString.lit "  /** */") (mkPosition 3 5)
  = Ok (mkRange (mkPosition 3 2) (mkPosition 3 8)).
Proof. reflexivity. Qed.

Example retrieveRange_before_the_slash :
  retrieveRange (CompletionItem_new "" Text) (JsString.lit "  /** */") (mkPosition 3 2)
  = Ok (mkRange (mkPosition 3 2) (mkPosition 3 3)).
Proof. reflexivity. Qed.

Example retrieveRange_without_delimiters :
  retrieveRange (CompletionItem_new "" Text) (JsString.lit "let x;") (mkPosition 0 3)
  = Ok (mkRange (mkPosition 0 3) (mkPosition 0 3)).
Proof. reflexivity. Qed.

Example retrieveRange_takes_a_bare_slash :
  retrieveRange (CompletionItem_new "" Text) (JsString.lit "x = a / b;") (mkPosition 0 6)
  = Ok (mkRange (mkPosition 0 6) (mkPosition 0 7)).
Proof. reflexivity. Qed.

Example match_opener_is_leftmost :
  match_ (JsString.lit "a /* b /** ") re_opener = Some (JsString.lit "/** ").
Proof. reflexivity. Qed.

Example match_closer_needs_the_start :
  match_ (JsString.lit "x */") re_closer = None.
Proof. reflexivity. Qed.

Example provider_refuses_code_before_the_opener :
  provideCompletionItems
    (mkTextDocument "file:///a.ts" "typescript" [JsString.lit "x /**"])
    (mkPosition 0 5) (mkToken false) = Ok None.
Proof. reflexivity. Qed.

Example provider_throws_outside_the_document :
  provideCompletionItems
    (mkTextDocument "file:///a.ts" "typescript" [JsString.lit "/**"])
    (mkPosition 4 3) (mkToken false)
  = Throw (IllegalArgument "Illegal value for `line`").
Proof. reflexivity. Qed.

(* ===================================================================== *)
(** ** The range consumes what the user typed *)
(* ===================================================================== *)

Lemma opener_length_spec line position :
  (∀ m, trailing_opener (take (character position) line) m →
        opener_length line position = length m) ∧
  ((¬ ∃ m, trailing_opener (take (character position) line) m) →
        opener_length line position = 0).
Proof.
  unfold opener_length, trailing_opener. split.
  - intros m Hm. apply match_opener_iff in Hm. by rewrite Hm.
  - intros Hno. destruct (match_ _ re_opener) as [m|] eqn:E; [|done].
    apply match_opener_iff in E. destruct Hno. eauto.
Qed.

Lemma closer_length_spec line position :
  (∀ m, leading_closer (drop (character position) line) m →
        closer_length line position = length m) ∧
  ((¬ ∃ m, leading_closer (drop (character position) line) m) →
        closer_length line position = 0).
Proof.
  unfold closer_length, leading_closer. split.
  - intros m Hm. apply match_closer_iff in Hm. by rewrite Hm.
  - intros Hno. destruct (match_ _ re_closer) as [m|] eqn:E; [|done].
    apply match_closer_iff in E. destruct Hno. eauto.
Qed.

Lemma jsdoc_opener_shape w : spaces w → opener_shape (JsString.lit "/**" ++ w).
Proof. intros Hw. by exists 2, w. Qed.

Lemma jsdoc_closer_shape w : spaces w → closer_shape (w ++ JsString.lit "*/").
Proof. intros Hw. by exists w, 1. Qed.

(** C1. On a line and a position of it, the range of the completion item
    starts before the position by exactly the length of the comment opener
    (a slash, asterisks, white space) that ends at the position, and ends
    after it by exactly the length of the comment closer (white space,
    asterisks, a slash) that starts at the position; on a side without
    such a delimiter the range stops at the position. With [/**] before
    the cursor and [*/] after it, white space apart, the range covers
    exactly that text. *)
Theorem retrieveRange_consumes_delimiters this line position :
  character position ≤ length line →
  ∃ r, retrieveRange this line position = Ok r ∧
    (∀ m, trailing_opener (take (character position) line) m →
       start r = mkPosition (Vscode.line position) (character position - length m)
       ∧ length m ≤ character position
       ∧ span_text line (mkRange (start r) position) = m) ∧
    ((¬ ∃ m, trailing_opener (take (character position) line) m) →
       start r = position) ∧
    (∀ m, leading_closer (drop (character position) line) m →
       end_ r = mkPosition (Vscode.line position) (character position + length m)
       ∧ span_text line (mkRange position (end_ r)) = m) ∧
    ((¬ ∃ m, leading_closer (drop (character position) line) m) →
       end_ r = position) ∧
    (∀ before w1 w2 after,
       line = before ++ (JsString.lit "/**" ++ w1) ++ (w2 ++ JsString.lit "*/") ++ after →
       spaces w1 → spaces w2 →
       character position = length before + length (JsString.lit "/**" ++ w1) →
       character (start r) = length before ∧
       span_text line r = (JsString.lit "/**" ++ w1) ++ (w2 ++ JsString.lit "*/")).
Proof.
  intros Hpos. eexists. split; [apply retrieveRange_eq|].
  cbn [start end_ character Vscode.line].
  destruct (opener_length_spec line position) as [Ho1 Ho0].
  destruct (closer_length_spec line position) as [Hc1 Hc0].
  pose proof (opener_length_le line position) as Hle.
  repeat apply conj.
  - intros m Hm. rewrite (Ho1 m Hm).
    assert (length m ≤ character position) as Hm' by (rewrite <- (Ho1 m Hm); lia).
    repeat apply conj; [done | done |].
    destruct Hm as [[before Hb] _].
    unfold span_text. cbn [start end_ character Vscode.line].
    assert (character position = length before + length m) as Hch.
    { rewrite <- length_app, <- Hb, length_take. lia. }
    rewrite <- (take_drop (character position) line) at 1.
    rewrite Hb, Hch.
    replace (length before + length m - length m) with (length before) by lia.
    replace (length before + length m - length before) with (length m) by lia.
    by rewrite <- app_assoc, drop_app_length, take_app_length.
  - intros Hno. rewrite (Ho0 Hno), Nat.sub_0_r. by destruct position.
  - intros m Hm. rewrite (Hc1 m Hm). split; [done|].
    destruct Hm as [[after Ha] _].
    unfold span_text. cbn [start end_ character Vscode.line].
    replace (character position + length m - character position) with (length m) by lia.
    by rewrite Ha, take_app_length.
  - intros Hno. rewrite (Hc0 Hno), Nat.add_0_r. by destruct position.
  - intros before w1 w2 after Hline Hw1 Hw2 Hch.
    assert (take (character position) line = before ++ JsString.lit "/**" ++ w1) as Ht.
    { subst line. rewrite Hch, app_assoc. apply take_app_length'.
      by rewrite !length_app. }
    assert (drop (character position) line = (w2 ++ JsString.lit "*/") ++ after) as Hd.
    { subst line. rewrite Hch, app_assoc. apply drop_app_length'.
      by rewrite !length_app. }
    unfold span_text. cbn [start end_ character Vscode.line].
    rewrite (Ho1 (JsString.lit "/**" ++ w1))
      by (split; [by exists before | by apply jsdoc_opener_shape]).
    rewrite (Hc1 (w2 ++ JsString.lit "*/"))
      by (split; [by exists after | by apply jsdoc_closer_shape]).
    rewrite Hch.
    replace (length before + length (JsString.lit "/**" ++ w1)
             - length (JsString.lit "/**" ++ w1)) with (length before) by lia.
    split; [done|].
    subst line. rewrite drop_app_length.
    rewrite app_assoc. apply take_app_length'.
    rewrite !length_app. lia.
Qed.

(** A line with the cursor between [/**] and [*/]: the range is the whole
    comment. *)
Lemma retrieveRange_consumes_delimiters_witness :
  ∃ r, retrieveRange (CompletionItem_new "" Snippet)
         (JsString.lit "  /** */") (mkPosition 3 5) = Ok r ∧
       r = mkRange (mkPosition 3 2) (mkPosition 3 8).
Proof.
  destruct (retrieveRange_consumes_delimiters (CompletionItem_new "" Snippet)
              (JsString.lit "  /** */") (mkPosition 3 5)) as (r & Hr & _).
  - simpl. lia.
  - exists r. split; [exact Hr|].
    vm_compute in Hr. injection Hr as <-. reflexivity.
Defined.

(** C3. Both ends of the range keep the line of the position, so every
    position inside the range is on that line: no part of a declaration
    that starts on another line is covered. *)
Theorem retrieveRange_stays_on_line this line position :
  ∃ r, retrieveRange this line position = Ok r ∧
    Vscode.line (start r) = Vscode.line position ∧
    Vscode.line (end_ r) = Vscode.line position ∧
    ∀ q, contains r q = true → Vscode.line q = Vscode.line position.
Proof.
  eexists. split; [apply retrieveRange_eq|].
  cbn [start end_ character Vscode.line]. repeat apply conj; try done.
  intros q. unfold contains, isBefore. cbn [start end_ character Vscode.line].
  destruct (Nat.ltb_spec (Vscode.line q) (Vscode.line position));
    destruct (Nat.ltb_spec (Vscode.line position) (Vscode.line q));
    simpl; try done; lia.
Qed.

(** C10. For a position inside the line, the range is well formed and
    contains the position: the start is not after the position (the
    opener is never longer than the text before the position, so the
    backward translation stays at or after column 0 and nothing throws),
    the end is not before it and not past the end of the line; when
    neither pattern matches, the range is empty at the position. *)
Theorem retrieveRange_well_formed this line position :
  character position ≤ length line →
  ∃ r, retrieveRange this line position = Ok r ∧
    (0 ≤ Z.of_nat (character position) - Z.of_nat (opener_length line position))%Z ∧
    Z.of_nat (character (start r)) =
      (Z.of_nat (character position) - Z.of_nat (opener_length line position))%Z ∧
    character (start r) ≤ character position ∧
    character position ≤ character (end_ r) ∧
    character (end_ r) ≤ length line ∧
    isBefore (end_ r) (start r) = false ∧
    contains r position = true ∧
    (match_ (JsString.slice line 0 (Some (Z.of_nat (character position)))) re_opener = None →
     match_ (JsString.slice line (Z.of_nat (character position)) None) re_closer = None →
     r = mkRange position position ∧ isEmpty r = true).
Proof.
  intros Hpos. eexists. split; [apply retrieveRange_eq|].
  cbn [start end_ character Vscode.line].
  pose proof (opener_length_le line position) as Ho.
  pose proof (closer_length_le line position) as Hc.
  repeat apply conj; try lia.
  - unfold isBefore. cbn [character Vscode.line]. rewrite Nat.ltb_irrefl.
    apply Nat.ltb_ge. lia.
  - unfold contains, isBefore. cbn [start end_ character Vscode.line].
    rewrite !Nat.ltb_irrefl.
    rewrite (proj2 (Nat.ltb_ge (character position) _)) by lia.
    rewrite (proj2 (Nat.ltb_ge _ (character position))) by lia. done.
  - rewrite slice_before, slice_after. intros H H0.
    unfold opener_length, closer_length, isEmpty. rewrite H, H0.
    cbn [start end_ character Vscode.line].
    rewrite Nat.sub_0_r, Nat.add_0_r, !Nat.eqb_refl. by destruct position.
Qed.

(** A bare opener at the end of the line: the range runs from the slash to
    the position. *)
Lemma retrieveRange_well_formed_witness :
  ∃ r, retrieveRange (CompletionItem_new "" Snippet)
         (JsString.lit "    /**") (mkPosition 7 7) = Ok r ∧
       character (start r) = 4 ∧ character (end_ r) = 7.
Proof.
  destruct (retrieveRange_well_formed (CompletionItem_new "" Snippet)
              (JsString.lit "    /**") (mkPosition 7 7)) as (r & Hr & _).
  - simpl. lia.
  - exists r. split; [exact Hr|].
    vm_compute in Hr. injection Hr as <-. split; reflexivity.
Defined.

(* ===================================================================== *)
(** ** The completion provider offers one item *)
(* ===================================================================== *)

Lemma GenerateJsdocCompletionItem_new_eq line position :
  GenerateJsdocCompletionItem_new line position = Ok (built_item line position).
Proof. unfold GenerateJsdocCompletionItem_new. by rewrite retrieveRange_eq. Qed.

Lemma provideCompletionItems_eq document position token l :
  lines document !! Vscode.line position = Some l →
  provideCompletionItems document position token =
    match match_ (take (character position) l) re_trigger with
    | Some _ => Ok (Some [built_item l position])
    | None => Ok None
    end.
Proof.
  intros Hl. unfold provideCompletionItems, lineAt. rewrite Hl.
  cbn [mbind result_bind text]. rewrite slice_before.
  destruct (match_ _ re_trigger); [|done].
  by rewrite GenerateJsdocCompletionItem_new_eq.
Qed.



(** C9. On a line of the document the provider returns [null] or a list
    of exactly one item, and that item has the empty insertion text, the
    sort text of the single character NUL, and the command
    [jsdoc-generator.generateJsdoc], which [activate] registers with the
    single-declaration handler. *)
Theorem provider_item_shape f g document position token context :
  Vscode.line position < length (lines document) →
  provide generateJsdocAutocompletion document position token context = Ok None ∨
  ∃ item,
    provide generateJsdocAutocompletion document position token context
      = Ok (Some [item]) ∧
    insertText item = Some ""%string ∧
    sortText item = Some (String Ascii.zero EmptyString) ∧
    (∃ c, item_command item = Some c ∧
          command c = "jsdoc-generator.generateJsdoc"%string ∧
          (command c, generateJsdoc f) ∈ commands (activate f g)).
Proof.
  intros Hline. apply lookup_lt_is_Some_2 in Hline as [l Hl].
  cbn [provide generateJsdocAutocompletion].
  rewrite (provideCompletionItems_eq _ _ _ l Hl).
  destruct (match_ _ re_trigger); [right | by left].
  eexists. split; [done|]. repeat apply conj; try done.
  eexists. split; [done|]. split; [done|]. by left.
Qed.

Lemma provider_item_shape_witness :
  provide generateJsdocAutocompletion sample_document (mkPosition 1 5)
    (mkToken false) (mkContext None) = Ok None ∨
  ∃ item,
    provide generateJsdocAutocompletion sample_document (mkPosition 1 5)
      (mkToken false) (mkContext None) = Ok (Some [item]) ∧
    insertText item = Some ""%string ∧
    sortText item = Some (String Ascii.zero EmptyString) ∧
    (∃ c, item_command item = Some c ∧
          command c = "jsdoc-generator.generateJsdoc"%string ∧
          (command c, generateJsdoc (λ _ _ d, d))
            ∈ commands (activate (λ _ _ d, d) (λ _ _ d, d))).
Proof.
  apply (provider_item_shape (λ _ _ d, d) (λ _ _ d, d) sample_document
           (mkPosition 1 5) (mkToken false) (mkContext None)).
  simpl. lia.
Defined.

Lemma retrieveRange_st_eq this it line position s :
  retrieveRange_st this line position s = (retrieveRange it line position, s).
Proof.
  unfold retrieveRange_st, retrieveRange.
  cbv [mbind H_bind result_bind mret H_ret result_ret lift_result].
  destruct (translate position 0 _) as [start|e]; [|done].
  by destruct (translate position 0 _) as [stop|e].
Qed.

Lemma assign_fresh g os o update :
  assign (length os) update (mkRuntime g (os ++ [o]))
  = (Ok tt, mkRuntime g (os ++ [update o])).
Proof.
  unfold assign. cbn [objects globals].
  rewrite list_lookup_middle by done.
  replace (length os) with (length os + 0) at 1 by lia.
  by rewrite insert_app_r.
Qed.

(** The constructor appends one object, the item of the value-level
    constructor, and touches nothing else. *)
Lemma GenerateJsdocCompletionItem_st_eq line position s :
  GenerateJsdocCompletionItem_st line position s
  = (Ok (length (objects s)),
     mkRuntime (globals s) (objects s ++ [built_item line position])).
Proof.
  destruct s as [g os]. unfold GenerateJsdocCompletionItem_st.
  cbv [mbind H_bind mret H_ret new_CompletionItem]. cbn [objects globals].
  rewrite assign_fresh, assign_fresh.
  rewrite (retrieveRange_st_eq _ (CompletionItem_new "" Snippet)), retrieveRange_eq.
  by rewrite assign_fresh, assign_fresh.
Qed.

Lemma provideCompletionItems_st_eq document position token l s :
  lines document !! Vscode.line position = Some l →
  provideCompletionItems_st document position token s =
    match match_ (take (character position) l) re_trigger with
    | Some _ =>
        (Ok (Some [length (objects s)]),
         mkRuntime (globals s) (objects s ++ [built_item l position]))
    | None => (Ok None, s)
    end.
Proof.
  intros Hl. unfold provideCompletionItems_st, lineAt. rewrite Hl.
  cbv [mbind H_bind mret H_ret lift_result]. cbn [text]. rewrite slice_before.
  destruct (match_ _ re_trigger); [|done].
  by rewrite GenerateJsdocCompletionItem_st_eq.
Qed.



(* ===================================================================== *)
(** ** The commands *)
(* ===================================================================== *)

Section Commands.
Variable f g : nat → option TextEditor →
  gmap string (list JsString.t) → gmap string (list JsString.t).

Lemma emitted_of_trace {A} (c : M A) w evs :
  trace (c w).2 = trace w ++ evs → emitted c w = evs.
Proof. unfold emitted. intros ->. apply drop_app_length. Qed.

Lemma lazy_run w :
  lazyInstantiateJsdocGenerator w =
    (Ok tt, mkWorld (Some (lazy_instance w)) (activeTextEditor w) (configuration w)
                    (documents w) (next_object w + length (lazy_events w))
                    (trace w ++ lazy_events w)).
Proof.
  unfold lazyInstantiateJsdocGenerator.
  destruct w as [[i|] ed cfg docs n tr]; run_M.
  - by rewrite Nat.add_0_r, app_nil_r.
  - by rewrite Nat.add_1_r.
Qed.

Lemma generateJsdoc_run w :
  generateJsdoc f w =
    match activeTextEditor w with
    | Some e =>
        (Ok tt, mkWorld (Some (lazy_instance w)) (activeTextEditor w) (configuration w)
                  (f (lazy_instance w) (Some e) (documents w))
                  (next_object w + length (lazy_events w))
                  (trace w ++ lazy_events w
                     ++ [CallGenerateJsdoc (lazy_instance w) (Some e)]))
    | None =>
        (Ok tt, mkWorld (Some (lazy_instance w)) (activeTextEditor w) (configuration w)
                  (documents w) (next_object w + length (lazy_events w))
                  (trace w ++ lazy_events w ++ [ShowErrorMessage ERROR_NO_EDITOR]))
    end.
Proof.
  unfold generateJsdoc. unfold mbind at 1. unfold M_bind at 1. rewrite lazy_run.
  destruct w as [[i|] [e|] cfg docs n tr]; run_M; rewrite <- ?app_assoc; reflexivity.
Qed.

Lemma generateJsdocFile_run w :
  generateJsdocFile g w =
    match activeTextEditor w with
    | Some e =>
        (Ok tt, mkWorld (Some (lazy_instance w)) (activeTextEditor w) (configuration w)
                  (g (lazy_instance w) (Some e) (documents w))
                  (next_object w + length (lazy_events w))
                  (trace w ++ lazy_events w
                     ++ [CallGenerateJsdocFile (lazy_instance w) (Some e)]))
    | None =>
        (Ok tt, mkWorld (Some (lazy_instance w)) (activeTextEditor w) (configuration w)
                  (documents w) (next_object w + length (lazy_events w))
                  (trace w ++ lazy_events w ++ [ShowErrorMessage ERROR_NO_EDITOR]))
    end.
Proof.
  unfold generateJsdocFile. unfold mbind at 1. unfold M_bind at 1. rewrite lazy_run.
  destruct w as [[i|] [e|] cfg docs n tr]; run_M; rewrite <- ?app_assoc; reflexivity.
Qed.

Lemma generateJsdocFiles_run w :
  generateJsdocFiles w =
    (Ok tt, mkWorld (Some (lazy_instance w)) (activeTextEditor w) (configuration w)
              (documents w) (next_object w + length (lazy_events w))
              (trace w ++ lazy_events w ++ [ShowWarningMessage WARNING_NOT_AVAILABLE])).
Proof.
  unfold generateJsdocFiles. unfold mbind at 1. unfold M_bind at 1. rewrite lazy_run.
  destruct w as [[i|] e cfg docs n tr]; run_M; rewrite <- ?app_assoc; reflexivity.
Qed.

Lemma lazy_events_no_generation w : List.filter is_generation (lazy_events w) = [].
Proof. unfold lazy_events. by destruct (jsdocGenerator w). Qed.

Lemma filter_lazy_then (p : Event → bool) w e :
  List.filter p (lazy_events w) = [] →
  List.filter p (lazy_events w ++ [e]) = if p e then [e] else [].
Proof. intros H. by rewrite List.filter_app, H. Qed.

Lemma lazy_events_no_message w : List.filter is_message (lazy_events w) = [].
Proof. unfold lazy_events. by destruct (jsdocGenerator w). Qed.

(** C4. Without an active editor each of the two commands shows the error
    message, calls no generation entry point and leaves the documents as
    they are; with an active editor it calls its own entry point exactly
    once, on the instance held by the module and with that editor, and
    shows no message. *)
Theorem commands_require_active_editor w :
  (activeTextEditor w = None →
     ((generateJsdoc f w).1 = Ok tt ∧
      emitted (generateJsdoc f) w = lazy_events w ++ [ShowErrorMessage ERROR_NO_EDITOR] ∧
      List.filter is_generation (emitted (generateJsdoc f) w) = [] ∧
      documents (generateJsdoc f w).2 = documents w) ∧
     ((generateJsdocFile g w).1 = Ok tt ∧
      emitted (generateJsdocFile g) w = lazy_events w ++ [ShowErrorMessage ERROR_NO_EDITOR] ∧
      List.filter is_generation (emitted (generateJsdocFile g) w) = [] ∧
      documents (generateJsdocFile g w).2 = documents w)) ∧
  (∀ e, activeTextEditor w = Some e →
     ((generateJsdoc f w).1 = Ok tt ∧
      emitted (generateJsdoc f) w
        = lazy_events w ++ [CallGenerateJsdoc (lazy_instance w) (Some e)] ∧
      List.filter is_generation (emitted (generateJsdoc f) w)
        = [CallGenerateJsdoc (lazy_instance w) (Some e)] ∧
      List.filter is_message (emitted (generateJsdoc f) w) = [] ∧
      documents (generateJsdoc f w).2 = f (lazy_instance w) (Some e) (documents w)) ∧
     ((generateJsdocFile g w).1 = Ok tt ∧
      emitted (generateJsdocFile g) w
        = lazy_events w ++ [CallGenerateJsdocFile (lazy_instance w) (Some e)] ∧
      List.filter is_generation (emitted (generateJsdocFile g) w)
        = [CallGenerateJsdocFile (lazy_instance w) (Some e)] ∧
      List.filter is_message (emitted (generateJsdocFile g) w) = [] ∧
      documents (generateJsdocFile g w).2 = g (lazy_instance w) (Some e) (documents w))).
Proof.
  split.
  - intros Hnone.
    assert (emitted (generateJsdoc f) w
            = lazy_events w ++ [ShowErrorMessage ERROR_NO_EDITOR]) as E1.
    { apply emitted_of_trace. by rewrite generateJsdoc_run, Hnone. }
    assert (emitted (generateJsdocFile g) w
            = lazy_events w ++ [ShowErrorMessage ERROR_NO_EDITOR]) as E2.
    { apply emitted_of_trace. by rewrite generateJsdocFile_run, Hnone. }
    rewrite E1, E2, generateJsdoc_run, generateJsdocFile_run, Hnone.
    rewrite (filter_lazy_then _ _ _ (lazy_events_no_generation w)).
    done.
  - intros e He.
    assert (emitted (generateJsdoc f) w
            = lazy_events w ++ [CallGenerateJsdoc (lazy_instance w) (Some e)]) as E1.
    { apply emitted_of_trace. by rewrite generateJsdoc_run, He. }
    assert (emitted (generateJsdocFile g) w
            = lazy_events w ++ [CallGenerateJsdocFile (lazy_instance w) (Some e)]) as E2.
    { apply emitted_of_trace. by rewrite generateJsdocFile_run, He. }
    rewrite E1, E2, generateJsdoc_run, generateJsdocFile_run, He.
    rewrite !(filter_lazy_then _ _ _ (lazy_events_no_generation w)).
    rewrite !(filter_lazy_then _ _ _ (lazy_events_no_message w)).
    done.
Qed.

(** C5. In every state the whole-workspace command calls no generation
    entry point and edits nothing: the one thing shown to the user is the
    warning that the function is not available, and the documents, the
    active editor and the configuration stay as they were. *)
Theorem generateJsdocFiles_only_warns w :
  (generateJsdocFiles w).1 = Ok tt ∧
  emitted generateJsdocFiles w
    = lazy_events w ++ [ShowWarningMessage "This function is not available yet."] ∧
  List.filter is_generation (emitted generateJsdocFiles w) = [] ∧
  List.filter is_message (emitted generateJsdocFiles w)
    = [ShowWarningMessage "This function is not available yet."] ∧
  documents (generateJsdocFiles w).2 = documents w ∧
  activeTextEditor (generateJsdocFiles w).2 = activeTextEditor w ∧
  configuration (generateJsdocFiles w).2 = configuration w.
Proof.
  assert (emitted generateJsdocFiles w
          = lazy_events w ++ [ShowWarningMessage WARNING_NOT_AVAILABLE]) as E.
  { apply emitted_of_trace. by rewrite generateJsdocFiles_run. }
  rewrite E, generateJsdocFiles_run.
  rewrite (filter_lazy_then _ _ _ (lazy_events_no_generation w)).
  rewrite (filter_lazy_then _ _ _ (lazy_events_no_message w)).
  done.
Qed.

(** *** One instance for the whole session *)

Lemma instances_created_app w evs tr :
  trace w = tr ++ evs →
  instances_created w = length (List.filter is_new tr) + length (List.filter is_new evs).
Proof. unfold instances_created. intros ->. by rewrite List.filter_app, length_app. Qed.

Lemma lazy_events_new w :
  length (List.filter is_new (lazy_events w)) = length (lazy_events w).
Proof. unfold lazy_events. by destruct (jsdocGenerator w). Qed.

Lemma handler_ok_generateJsdoc : handler_ok (generateJsdoc f).
Proof.
  intros w. rewrite generateJsdoc_run.
  destruct (activeTextEditor w); cbn [snd jsdocGenerator]; (split; [done|]);
    unfold instances_created; cbn [trace];
    by rewrite !List.filter_app, !length_app, lazy_events_new, Nat.add_0_r.
Qed.

Lemma handler_ok_generateJsdocFile : handler_ok (generateJsdocFile g).
Proof.
  intros w. rewrite generateJsdocFile_run.
  destruct (activeTextEditor w); cbn [snd jsdocGenerator]; (split; [done|]);
    unfold instances_created; cbn [trace];
    by rewrite !List.filter_app, !length_app, lazy_events_new, Nat.add_0_r.
Qed.

Lemma handler_ok_generateJsdocFiles : handler_ok generateJsdocFiles.
Proof.
  intros w. rewrite generateJsdocFiles_run. cbn [snd jsdocGenerator].
  split; [done|]. unfold instances_created; cbn [trace].
  by rewrite !List.filter_app, !length_app, lazy_events_new, Nat.add_0_r.
Qed.

Lemma find_command_ok name h :
  find_command name (commands (activate f g)) = Some h → handler_ok h.
Proof.
  cbn [find_command commands activate].
  repeat case_decide; intros [= <-];
    auto using handler_ok_generateJsdoc, handler_ok_generateJsdocFile,
               handler_ok_generateJsdocFiles.
Qed.

Lemma host_step_one_instance w s : one_instance w → one_instance (host_step f g w s).
Proof.
  unfold one_instance. destruct s as [name|editor]; [|done].
  cbn [host_step].
  destruct (find_command name _) as [h|] eqn:E; [|done].
  destruct (find_command_ok name h E w) as [-> ->].
  unfold lazy_events. destruct (jsdocGenerator w); simpl; lia.
Qed.

Lemma host_step_keeps_instance w s i :
  jsdocGenerator w = Some i →
  jsdocGenerator (host_step f g w s) = Some i ∧
  instances_created (host_step f g w s) = instances_created w.
Proof.
  intros Hi. destruct s as [name|editor]; [|done].
  cbn [host_step].
  destruct (find_command name _) as [h|] eqn:E; [|done].
  destruct (find_command_ok name h E w) as [-> ->].
  unfold lazy_instance, lazy_events. rewrite Hi. simpl. split; [done | lia].
Qed.

Lemma session_one_instance steps w : one_instance w → one_instance (session f g steps w).
Proof.
  revert w. induction steps as [|s steps IH]; intros w Hw; [done|].
  apply IH. by apply host_step_one_instance.
Qed.

Lemma session_keeps_instance steps w i :
  jsdocGenerator w = Some i →
  jsdocGenerator (session f g steps w) = Some i ∧
  instances_created (session f g steps w) = instances_created w.
Proof.
  revert w. induction steps as [|s steps IH]; intros w Hw; [done|].
  destruct (host_step_keeps_instance w s i Hw) as [H1 H2].
  destruct (IH _ H1) as [H3 H4].
  change (session f g (s :: steps) w) with (session f g steps (host_step f g w s)).
  split; [done | congruence].
Qed.

(** C6. Lazy instantiation is idempotent: run twice it does what it does
    run once. It constructs the instance when the variable is still
    [undefined] and changes nothing when an instance is there; along a
    whole session of commands at most one instance is constructed, and
    the instance once held is never replaced. *)
Theorem lazyInstantiate_idempotent :
  (∀ w, (lazyInstantiateJsdocGenerator ≫= λ _, lazyInstantiateJsdocGenerator) w
        = lazyInstantiateJsdocGenerator w) ∧
  (∀ w, ∃ i, jsdocGenerator (lazyInstantiateJsdocGenerator w).2 = Some i) ∧
  (∀ w i, jsdocGenerator w = Some i → lazyInstantiateJsdocGenerator w = (Ok tt, w)) ∧
  (∀ w, jsdocGenerator w = None →
        jsdocGenerator (lazyInstantiateJsdocGenerator w).2 = Some (next_object w) ∧
        emitted lazyInstantiateJsdocGenerator w = [NewJsdocGenerator (next_object w)]) ∧
  (∀ steps editor cfg docs,
        instances_created (session f g steps (initial_world editor cfg docs)) ≤ 1) ∧
  (∀ steps w i, jsdocGenerator w = Some i →
        jsdocGenerator (session f g steps w) = Some i ∧
        instances_created (session f g steps w) = instances_created w).
Proof.
  repeat apply conj.
  - intros w. unfold mbind at 1. unfold M_bind at 1. rewrite !lazy_run.
    cbn. by rewrite Nat.add_0_r, app_nil_r.
  - intros w. rewrite lazy_run. by eexists.
  - intros w i Hi. rewrite lazy_run. unfold lazy_instance, lazy_events.
    rewrite Hi. destruct w. simpl in *. by rewrite Hi, Nat.add_0_r, app_nil_r.
  - intros w Hnone. split.
    + rewrite lazy_run. unfold lazy_instance. by rewrite Hnone.
    + apply emitted_of_trace. rewrite lazy_run. unfold lazy_events. by rewrite Hnone.
  - intros steps editor cfg docs.
    pose proof (session_one_instance steps (initial_world editor cfg docs) eq_refl) as H.
    unfold one_instance in H. destruct (jsdocGenerator _); lia.
  - apply session_keeps_instance.
Qed.

End Commands.

(** C7. [getConfig] returns the value the host configuration holds under
    the name, dotted or not, when there is one, and the default value of
    the caller when there is none; it changes nothing. *)
Theorem getConfig_value_or_default configurationName defaultValue w :
  (∀ v, configuration w !! configurationName = Some v →
        getConfig configurationName defaultValue w = (Ok v, w)) ∧
  (configuration w !! configurationName = None →
        getConfig configurationName defaultValue w = (Ok defaultValue, w)).
Proof.
  unfold getConfig, WorkspaceConfiguration_get. run_M.
  split; [intros v H | intros H]; by rewrite H.
Qed.

(* ===================================================================== *)
(** ** The commands on a concrete session *)
(* ===================================================================== *)

(** Right after activation: without an editor the command shows the error
    and calls nothing, with an editor it calls the generator once. *)
Lemma commands_require_active_editor_witness :
  emitted (generateJsdoc add_line) (initial_world None ∅ ∅)
    = [NewJsdocGenerator 0; ShowErrorMessage ERROR_NO_EDITOR] ∧
  emitted (generateJsdocFile no_edits) (initial_world (Some sample_editor) ∅ ∅)
    = [NewJsdocGenerator 0; CallGenerateJsdocFile 0 (Some sample_editor)].
Proof.
  split.
  - destruct (commands_require_active_editor add_line no_edits
                (initial_world None ∅ ∅)) as [Hnone _].
    destruct (Hnone eq_refl) as [(_ & E & _) _]. exact E.
  - destruct (commands_require_active_editor add_line no_edits
                (initial_world (Some sample_editor) ∅ ∅)) as [_ Hsome].
    destruct (Hsome sample_editor eq_refl) as [_ (_ & E & _)]. exact E.
Defined.

(** Four commands in a row construct one instance. *)
Lemma lazyInstantiate_idempotent_witness :
  instances_created
    (session add_line no_edits
       [Invoke GENERATE_JSDOC_FILES; Focus (Some sample_editor);
        Invoke GENERATE_JSDOC; Invoke GENERATE_JSDOC_FILE; Invoke GENERATE_JSDOC]
       (initial_world None ∅ ∅)) ≤ 1 ∧
  lazyInstantiateJsdocGenerator
    (mkWorld (Some 7) None ∅ ∅ 8 [NewJsdocGenerator 7])
    = (Ok tt, mkWorld (Some 7) None ∅ ∅ 8 [NewJsdocGenerator 7]).
Proof.
  destruct (lazyInstantiate_idempotent add_line no_edits)
    as (_ & _ & Hset & _ & Hmax & _).
  split.
  - apply Hmax.
  - apply (Hset _ 7). reflexivity.
Defined.

(** A store with one dotted name: the stored value for that name, the
    default for another. *)
Lemma getConfig_value_or_default_witness :
  getConfig "jsdoc-generator.author" (JsText "")
    (initial_world None {["jsdoc-generator.author" := JsText "me"]} ∅)
  = (Ok (JsText "me"),
     initial_world None {["jsdoc-generator.author" := JsText "me"]} ∅) ∧
  getConfig "jsdoc-generator.includeTypes" (JsBoolean true)
    (initial_world None {["jsdoc-generator.author" := JsText "me"]} ∅)
  = (Ok (JsBoolean true),
     initial_world None {["jsdoc-generator.author" := JsText "me"]} ∅).
Proof.
  split.
  - apply (proj1 (getConfig_value_or_default "jsdoc-generator.author" (JsText "")
                    (initial_world None {["jsdoc-generator.author" := JsText "me"]} ∅))).
    reflexivity.
  - apply (proj2 (getConfig_value_or_default "jsdoc-generator.includeTypes"
                    (JsBoolean true)
                    (initial_world None {["jsdoc-generator.author" := JsText "me"]} ∅))).
    reflexivity.
Defined.

(* ===================================================================== *)
(** ** Further properties of the range *)
(* ===================================================================== *)

Lemma opener_length_text line position :
  opener_length line position = length (opener_text line position).
Proof. unfold opener_length, opener_text. by destruct (match_ _ re_opener). Qed.

Lemma closer_length_text line position :
  closer_length line position = length (closer_text line position).
Proof. unfold closer_length, closer_text. by destruct (match_ _ re_closer). Qed.

Lemma opener_text_suffix line position :
  ∃ before, take (character position) line = before ++ opener_text line position.
Proof.
  unfold opener_text. destruct (match_ _ re_opener) as [m|] eqn:E; simpl.
  - by apply match_opener_iff in E as [? _].
  - eexists. by rewrite app_nil_r.
Qed.

Lemma closer_text_prefix line position :
  ∃ after, drop (character position) line = closer_text line position ++ after.
Proof.
  unfold closer_text. destruct (match_ _ re_closer) as [m|] eqn:E; simpl.
  - by apply match_closer_iff in E as [? _].
  - by eexists.
Qed.

Lemma opener_shape_delimiters m : opener_shape m → Forall delimiter_char m.
Proof.
  intros (k & w & -> & Hw). constructor; [by left|].
  apply Forall_app. split.
  - apply Forall_replicate. right. by left.
  - eapply Forall_impl; [exact Hw|]. intros c Hc. right. by right.
Qed.

Lemma closer_shape_delimiters m : closer_shape m → Forall delimiter_char m.
Proof.
  intros (w & k & -> & Hw). rewrite !Forall_app. repeat split.
  - eapply Forall_impl; [exact Hw|]. intros c Hc. right. by right.
  - apply Forall_replicate. right. by left.
  - constructor; [by left | constructor].
Qed.

Lemma opener_text_delimiters line position :
  Forall delimiter_char (opener_text line position).
Proof.
  unfold opener_text. destruct (match_ _ re_opener) as [m|] eqn:E; simpl; [|constructor].
  apply match_opener_iff in E as [_ Hm]. by apply opener_shape_delimiters.
Qed.

Lemma closer_text_delimiters line position :
  Forall delimiter_char (closer_text line position).
Proof.
  unfold closer_text. destruct (match_ _ re_closer) as [m|] eqn:E; simpl; [|constructor].
  apply match_closer_iff in E as [_ Hm]. by apply closer_shape_delimiters.
Qed.

(** The line around a position of it: what precedes the opener text, the
    opener text, the closer text, and what follows. *)
Lemma line_around_position line position :
  character position ≤ length line →
  ∃ before after,
    line = before ++ opener_text line position ++ closer_text line position ++ after ∧
    character position = length before + length (opener_text line position).
Proof.
  intros Hpos.
  destruct (opener_text_suffix line position) as [before Hb].
  destruct (closer_text_prefix line position) as [after Ha].
  exists before, after. split.
  - rewrite <- (take_drop (character position) line) at 1.
    by rewrite Hb, Ha, <- app_assoc.
  - rewrite <- length_app, <- Hb, length_take. lia.
Qed.

(** X1. For a position inside the line, the text covered by the range is
    exactly the opener match followed by the closer match, and every
    covered character is a slash, an asterisk or white space. *)
Theorem retrieveRange_covers_delimiters_only this line position :
  character position ≤ length line →
  ∃ r, retrieveRange this line position = Ok r ∧
    span_text line r = opener_text line position ++ closer_text line position ∧
    Forall delimiter_char (span_text line r).
Proof.
  intros Hpos. eexists. split; [apply retrieveRange_eq|].
  assert (span_text line
            (mkRange
               (mkPosition (Vscode.line position)
                  (character position - opener_length line position))
               (mkPosition (Vscode.line position)
                  (character position + closer_length line position)))
          = opener_text line position ++ closer_text line position) as E.
  { unfold span_text. cbn [start end_ character Vscode.line].
    rewrite opener_length_text, closer_length_text.
    destruct (line_around_position line position Hpos) as (before & after & Hl & Hch).
    generalize dependent (closer_text line position).
    generalize dependent (opener_text line position).
    intros o Hch c Hl. rewrite Hch.
    replace (length before + length o - length o) with (length before) by lia.
    replace (length before + length o + length c - length before)
      with (length (o ++ c)) by (rewrite length_app; lia).
    rewrite Hl, drop_app_length, (app_assoc o). apply take_app_length. }
  split; [exact E|]. rewrite E. apply Forall_app. split.
  - apply opener_text_delimiters.
  - apply closer_text_delimiters.
Qed.

(** A comment between two statements: the covered text is the comment. *)
Lemma retrieveRange_covers_delimiters_only_witness :
  ∃ r, retrieveRange (CompletionItem_new "" Snippet)
         (JsString.lit "x = 1; /** */ y = 2;") (mkPosition 0 10) = Ok r ∧
       span_text (JsString.lit "x = 1; /** */ y = 2;") r = JsString.lit "/** */".
Proof.
  destruct (retrieveRange_covers_delimiters_only (CompletionItem_new "" Snippet)
              (JsString.lit "x = 1; /** */ y = 2;") (mkPosition 0 10))
    as (r & Hr & Hs & _).
  - simpl. lia.
  - exists r. split; [exact Hr|]. rewrite Hs. reflexivity.
Defined.

Lemma opener_text_shape line position :
  opener_text line position = [] ∨ opener_shape (opener_text line position).
Proof.
  unfold opener_text. destruct (match_ _ re_opener) as [m|] eqn:E; simpl; [|by left].
  right. by apply match_opener_iff in E as [_ ?].
Qed.

Lemma closer_text_shape line position :
  closer_text line position = [] ∨ closer_shape (closer_text line position).
Proof.
  unfold closer_text. destruct (match_ _ re_closer) as [m|] eqn:E; simpl; [|by left].
  right. by apply match_closer_iff in E as [_ ?].
Qed.

Lemma closer_shape_last m : closer_shape m → ∃ t, m = t ++ [SLASH] ∧ SLASH ∉ t.
Proof.
  intros (w & k & -> & Hw). exists (w ++ replicate k ASTERISK).
  split; [by rewrite <- app_assoc|].
  rewrite elem_of_app. intros [Hin|Hin].
  - by apply spaces_no_slash in Hin.
  - by apply elem_of_replicate in Hin as [? _].
Qed.

(** X2. For a position inside the line: when the range starts before the
    position it starts on a slash, the last one before the position; when
    it ends after the position it ends right behind a slash, the first
    one from the position on. *)
Theorem retrieveRange_ends_on_slashes this line position :
  character position ≤ length line →
  ∃ r, retrieveRange this line position = Ok r ∧
    (character (start r) < character position →
       line !! character (start r) = Some SLASH ∧
       SLASH ∉ take (character position - S (character (start r)))
                    (drop (S (character (start r))) line)) ∧
    (character position < character (end_ r) →
       line !! pred (character (end_ r)) = Some SLASH ∧
       SLASH ∉ take (pred (character (end_ r)) - character position)
                    (drop (character position) line)).
Proof.
  intros Hpos. eexists. split; [apply retrieveRange_eq|].
  cbn [start end_ character Vscode.line].
  rewrite opener_length_text, closer_length_text.
  destruct (line_around_position line position Hpos) as (before & after & Hl & Hch).
  pose proof (opener_text_shape line position) as Ho.
  pose proof (closer_text_shape line position) as Hc.
  generalize dependent (closer_text line position).
  generalize dependent (opener_text line position).
  intros o Hch Ho c Hl Hc. rewrite Hch, Hl. clear Hl Hpos. split.
  - intros Hlt. destruct Ho as [->|Ho]; [simpl in Hlt; lia|].
    apply opener_shape_head in Ho as (t & -> & Hnot).
    replace (length before + length (SLASH :: t) - length (SLASH :: t))
      with (length before) by lia.
    change ((SLASH :: t) ++ c ++ after) with (SLASH :: (t ++ c ++ after)).
    split; [by apply list_lookup_middle|].
    rewrite (cons_middle SLASH before), app_assoc.
    rewrite drop_app_length' by (rewrite length_app; simpl; lia).
    replace (length before + length (SLASH :: t) - S (length before))
      with (length t) by (simpl; lia).
    by rewrite take_app_length.
  - intros Hlt. destruct Hc as [->|Hc]; [simpl in Hlt; lia|].
    apply closer_shape_last in Hc as (t & -> & Hnot).
    rewrite length_app. simpl.
    replace (pred (length before + length o + (length t + 1)))
      with (length before + length o + length t) by lia.
    split.
    + rewrite !app_assoc, <- (app_assoc _ [SLASH] after). simpl.
      apply list_lookup_middle. rewrite !length_app. lia.
    + rewrite (app_assoc before o), drop_app_length' by (by rewrite length_app).
      replace (length before + length o + length t - (length before + length o))
        with (length t) by lia.
      by rewrite <- !app_assoc, take_app_length.
Qed.

(** Two comments on one line: the range takes the one around the cursor. *)
Lemma retrieveRange_ends_on_slashes_witness :
  ∃ r, retrieveRange (CompletionItem_new "" Snippet)
         (JsString.lit "/** a */ /** */") (mkPosition 2 12) = Ok r ∧
       character (start r) = 9 ∧ character (end_ r) = 15.
Proof.
  destruct (retrieveRange_ends_on_slashes (CompletionItem_new "" Snippet)
              (JsString.lit "/** a */ /** */") (mkPosition 2 12)) as (r & Hr & _).
  - simpl. lia.
  - exists r. split; [exact Hr|].
    vm_compute in Hr. injection Hr as <-. split; reflexivity.
Defined.

(** X3. Whatever the position, inside the line or past its end: without
    a slash before the position the range starts at the position, and
    without a slash from the position on it ends at the position. *)
Theorem retrieveRange_needs_a_slash this line position :
  ∃ r, retrieveRange this line position = Ok r ∧
    (SLASH ∉ take (character position) line → start r = position) ∧
    (SLASH ∉ drop (character position) line → end_ r = position).
Proof.
  eexists. split; [apply retrieveRange_eq|].
  cbn [start end_ character Vscode.line].
  rewrite opener_length_text, closer_length_text. split.
  - intros Hno. destruct (opener_text_shape line position) as [->|Ho].
    + simpl. rewrite Nat.sub_0_r. by destruct position.
    + destruct (opener_text_suffix line position) as [before Hb].
      apply opener_shape_head in Ho as (t & Ht & _).
      destruct Hno. rewrite Hb, Ht, elem_of_app. right. by left.
  - intros Hno. destruct (closer_text_shape line position) as [->|Hc].
    + simpl. rewrite Nat.add_0_r. by destruct position.
    + destruct (closer_text_prefix line position) as [after Ha].
      apply closer_shape_last in Hc as (t & Ht & _).
      destruct Hno. rewrite Ha, Ht, !elem_of_app. left. right. by left.
Qed.

(** A comment opener without its slash is not taken, and a position past
    the end of the line has nothing after it. *)
Lemma retrieveRange_needs_a_slash_witness :
  ∃ r, retrieveRange (CompletionItem_new "" Snippet)
         (JsString.lit "  ** ") (mkPosition 0 9) = Ok r ∧
       start r = mkPosition 0 9 ∧ end_ r = mkPosition 0 9.
Proof.
  destruct (retrieveRange_needs_a_slash (CompletionItem_new "" Snippet)
              (JsString.lit "  ** ") (mkPosition 0 9)) as (r & Hr & Hs & He).
  exists r. split; [exact Hr|]. split.
  - apply Hs. vm_compute. intros H. repeat (apply elem_of_cons in H as [H|H]; [done|]).
    by apply elem_of_nil in H.
  - apply He. vm_compute. apply not_elem_of_nil.
Defined.

(* ===================================================================== *)
(** ** Further properties of the provider *)
(* ===================================================================== *)

Lemma trigger_shape_length t : trigger_shape t → 3 ≤ length t.
Proof. intros (w1 & w2 & -> & _). rewrite !length_app. simpl. lia. Qed.

Lemma provide_offered document position token context l item :
  lines document !! Vscode.line position = Some l →
  provide generateJsdocAutocompletion document position token context
    = Ok (Some [item]) →
  item = built_item l position ∧ trigger_shape (take (character position) l).
Proof.
  intros Hl. cbn [provide generateJsdocAutocompletion].
  rewrite (provideCompletionItems_eq _ _ _ l Hl).
  destruct (match_ _ re_trigger) as [m|] eqn:E; [|done].
  intros [= <-]. split; [done|]. apply match_trigger_iff. by eexists.
Qed.

(** X4. When the provider offers the item at a position inside the line,
    the item is the snippet labelled as in the source and its range is
    the one [retrieveRange] computes: it starts at the column of the
    slash of [/**], behind the indentation, the text from there to the
    cursor is [/**] and the white space typed after it, and the range
    contains the cursor. *)
Theorem provider_item_replaces_the_opener document position token context l item :
  lines document !! Vscode.line position = Some l →
  character position ≤ length l →
  provide generateJsdocAutocompletion document position token context
    = Ok (Some [item]) →
  ∃ w1 w2 r,
    take (character position) l = w1 ++ JsString.lit "/**" ++ w2 ∧
    spaces w1 ∧ spaces w2 ∧
    label item = "/** Autogenerated JSDoc */"%string ∧
    kind item = Some Snippet ∧
    range item = Some r ∧
    retrieveRange item l position = Ok r ∧
    start r = mkPosition (Vscode.line position) (length w1) ∧
    span_text l (mkRange (start r) position) = JsString.lit "/**" ++ w2 ∧
    contains r position = true.
Proof.
  intros Hl Hpos Hoffer.
  destruct (provide_offered _ _ _ _ _ _ Hl Hoffer) as [-> (w1 & w2 & Ht & Hw1 & Hw2)].
  exists w1, w2. eexists. split; [exact Ht|]. do 4 (split; [done|]).
  split; [reflexivity|]. split; [apply retrieveRange_eq|].
  cbn [start end_ character Vscode.line].
  assert (opener_length l position = length (JsString.lit "/**" ++ w2)) as Ho.
  { apply opener_length_spec. split; [by exists w1 | by apply jsdoc_opener_shape]. }
  assert (character position = length w1 + length (JsString.lit "/**" ++ w2)) as Hch.
  { rewrite <- length_app, <- Ht, length_take. lia. }
  rewrite Ho, Hch.
  replace (length w1 + length (JsString.lit "/**" ++ w2)
           - length (JsString.lit "/**" ++ w2)) with (length w1) by lia.
  repeat apply conj.
  - done.
  - unfold span_text. cbn [start end_ character Vscode.line].
    replace (character position - length w1)
      with (length (JsString.lit "/**" ++ w2)) by lia.
    rewrite <- (take_drop (character position) l), Ht.
    by rewrite <- app_assoc, drop_app_length, take_app_length.
  - unfold contains, isBefore. cbn [start end_ character Vscode.line].
    rewrite !Nat.ltb_irrefl.
    rewrite (proj2 (Nat.ltb_ge (character position) _)) by lia.
    rewrite (proj2 (Nat.ltb_ge _ (character position))) by lia. done.
Qed.

Lemma provider_item_replaces_the_opener_witness :
  ∃ w1 w2 r,
    take 5 (JsString.lit "  /** */") = w1 ++ JsString.lit "/**" ++ w2 ∧
    spaces w1 ∧ spaces w2 ∧
    label (built_item (JsString.lit "  /** */") (mkPosition 1 5))
      = "/** Autogenerated JSDoc */"%string ∧
    kind (built_item (JsString.lit "  /** */") (mkPosition 1 5)) = Some Snippet ∧
    range (built_item (JsString.lit "  /** */") (mkPosition 1 5)) = Some r ∧
    retrieveRange (built_item (JsString.lit "  /** */") (mkPosition 1 5))
      (JsString.lit "  /** */") (mkPosition 1 5) = Ok r ∧
    start r = mkPosition 1 (length w1) ∧
    span_text (JsString.lit "  /** */") (mkRange (start r) (mkPosition 1 5))
      = JsString.lit "/**" ++ w2 ∧
    contains r (mkPosition 1 5) = true.
Proof.
  apply (provider_item_replaces_the_opener sample_document (mkPosition 1 5)
           (mkToken false) (mkContext (Some ASTERISK)) (JsString.lit "  /** */")
           (built_item (JsString.lit "  /** */") (mkPosition 1 5))).
  - reflexivity.
  - simpl. lia.
  - reflexivity.
Defined.

(** X5. On a line of the document the provider returns [null] whenever
    fewer than three characters precede the cursor: at columns 0, 1 and 2,
    and anywhere on a line shorter than three characters. *)
Theorem provider_needs_three_characters document position token context l :
  lines document !! Vscode.line position = Some l →
  character position < 3 ∨ length l < 3 →
  provide generateJsdocAutocompletion document position token context = Ok None.
Proof.
  intros Hl Hshort. cbn [provide generateJsdocAutocompletion].
  rewrite (provideCompletionItems_eq _ _ _ l Hl).
  destruct (match_ _ re_trigger) as [m|] eqn:E; [|done].
  assert (trigger_shape (take (character position) l)) as Ht.
  { apply match_trigger_iff. by eexists. }
  apply trigger_shape_length in Ht. rewrite length_take in Ht. lia.
Qed.

Lemma provider_needs_three_characters_witness :
  provide generateJsdocAutocompletion sample_document (mkPosition 1 2)
    (mkToken false) (mkContext (Some SLASH)) = Ok None.
Proof.
  apply (provider_needs_three_characters sample_document (mkPosition 1 2)
           (mkToken false) (mkContext (Some SLASH)) (JsString.lit "  /** */")).
  - reflexivity.
  - left. simpl. lia.
Defined.

(** X6. The provider throws exactly when the line of the position is not
    a line of the document, and then with the host's illegal-argument
    error; on every line of the document it returns. *)
Theorem provider_throws_iff_line_outside document position token context :
  ((∃ e, provide generateJsdocAutocompletion document position token context
         = Throw e)
   ↔ length (lines document) ≤ Vscode.line position) ∧
  (provide generateJsdocAutocompletion document position token context
     = Throw (IllegalArgument "Illegal value for `line`")
   ↔ length (lines document) ≤ Vscode.line position).
Proof.
  cbn [provide generateJsdocAutocompletion].
  destruct (lines document !! Vscode.line position) as [l|] eqn:Hl.
  - rewrite (provideCompletionItems_eq _ _ _ l Hl).
    apply lookup_lt_Some in Hl.
    destruct (match_ _ re_trigger); (split; split;
      [by intros [? [=]] | lia | by intros [=] | lia]).
  - unfold provideCompletionItems, lineAt. rewrite Hl.
    apply lookup_ge_None in Hl.
    split; split; try done. by eexists.
Qed.

(** X7. When the item is offered, the character before the cursor is
    never a slash; if it is one of the registered trigger characters it
    is an asterisk, and the text before the cursor is then indentation
    followed by exactly [/**]. *)
Theorem provider_offers_after_asterisk document position token context l item c :
  lines document !! Vscode.line position = Some l →
  provide generateJsdocAutocompletion document position token context
    = Ok (Some [item]) →
  last (take (character position) l) = Some c →
  c ≠ SLASH ∧
  (c ∈ triggerCharacters generateJsdocAutocompletion →
   c = ASTERISK ∧
   ∃ w1, take (character position) l = w1 ++ JsString.lit "/**" ∧ spaces w1).
Proof.
  intros Hl Hoffer Hlast.
  destruct (provide_offered _ _ _ _ _ _ Hl Hoffer) as [_ (w1 & w2 & Ht & Hw1 & Hw2)].
  rewrite Ht, !last_app in Hlast.
  destruct (last w2) as [d|] eqn:E.
  - injection Hlast as <-.
    apply last_Some_elem_of in E.
    unfold spaces in Hw2. rewrite Forall_forall in Hw2. apply Hw2 in E.
    split.
    + intros ->. done.
    + cbn [triggerCharacters generateJsdocAutocompletion].
      intros Hin. exfalso.
      apply elem_of_cons in Hin as [->|Hin]; [done|].
      apply list_elem_of_singleton in Hin as ->. done.
  - apply last_None in E as ->. injection Hlast as <-.
    split; [done|]. intros _. split; [done|].
    exists w1. by rewrite Ht.
Qed.

Lemma provider_offers_after_asterisk_witness :
  ASTERISK ≠ SLASH ∧
  (ASTERISK ∈ triggerCharacters generateJsdocAutocompletion →
   ASTERISK = ASTERISK ∧
   ∃ w1, take 5 (JsString.lit "  /** */") = w1 ++ JsString.lit "/**" ∧ spaces w1).
Proof.
  apply (provider_offers_after_asterisk sample_document (mkPosition 1 5)
           (mkToken false) (mkContext (Some ASTERISK)) (JsString.lit "  /** */")
           (built_item (JsString.lit "  /** */") (mkPosition 1 5)) ASTERISK);
    reflexivity.
Defined.

(* ===================================================================== *)
(** ** Further properties of the commands *)
(* ===================================================================== *)

Section SessionProperties.
Variable f g : nat → option TextEditor →
  gmap string (list JsString.t) → gmap string (list JsString.t).

Lemma find_generateJsdoc :
  find_command GENERATE_JSDOC (commands (activate f g)) = Some (generateJsdoc f).
Proof. reflexivity. Qed.

(** What any registered handler does to the world: it leaves the active
    editor and the configuration alone, holds the lazily created instance
    afterwards, and adds one event after those of the lazy instantiation;
    without an active editor that event is no generation call and the
    documents stay. *)
Lemma registered_handler_effect name h w :
  find_command name (commands (activate f g)) = Some h →
  ∃ ev docs,
    (h w).2 = mkWorld (Some (lazy_instance w)) (activeTextEditor w) (configuration w)
                docs (next_object w + length (lazy_events w))
                (trace w ++ lazy_events w ++ [ev]) ∧
    is_new ev = false ∧ on_instance (lazy_instance w) ev ∧
    (activeTextEditor w = None → docs = documents w ∧ is_generation ev = false).
Proof.
  cbn [find_command commands activate].
  repeat case_decide; intros [= <-].
  - rewrite generateJsdoc_run. destruct (activeTextEditor w) eqn:E;
      eexists _, _; (split; [reflexivity|]); by repeat split.
  - rewrite generateJsdocFile_run. destruct (activeTextEditor w) eqn:E;
      eexists _, _; (split; [reflexivity|]); by repeat split.
  - rewrite generateJsdocFiles_run.
    eexists _, _; (split; [reflexivity|]); by repeat split.
Qed.

(** X8. Accepting an offered item runs the single-declaration command:
    the command the item names is registered by [activate], and invoking
    it calls the generator once with the active editor, or shows the
    error message when no editor is active. *)
Theorem accepted_item_runs_generateJsdoc document position token context l item w :
  lines document !! Vscode.line position = Some l →
  provide generateJsdocAutocompletion document position token context
    = Ok (Some [item]) →
  ∃ c, item_command item = Some c ∧
    (∀ e, activeTextEditor w = Some e →
       trace (host_step f g w (Invoke (command c)))
         = trace w ++ lazy_events w ++ [CallGenerateJsdoc (lazy_instance w) (Some e)] ∧
       documents (host_step f g w (Invoke (command c)))
         = f (lazy_instance w) (Some e) (documents w)) ∧
    (activeTextEditor w = None →
       trace (host_step f g w (Invoke (command c)))
         = trace w ++ lazy_events w ++ [ShowErrorMessage ERROR_NO_EDITOR] ∧
       documents (host_step f g w (Invoke (command c))) = documents w).
Proof.
  intros Hl Hoffer.
  destruct (provide_offered _ _ _ _ _ _ Hl Hoffer) as [-> _].
  eexists. split; [reflexivity|].
  cbn [command host_step]. rewrite find_generateJsdoc, generateJsdoc_run.
  split.
  - intros e ->. done.
  - intros ->. done.
Qed.

Lemma host_step_session_state w s : session_state w → session_state (host_step f g w s).
Proof.
  intros Hw. destruct s as [name|editor]; [|exact Hw].
  cbn [host_step].
  destruct (find_command name _) as [h|] eqn:E; [|exact Hw].
  destruct (registered_handler_effect name h w E) as (ev & docs & -> & Hnew & Hon & _).
  right. cbn [snd jsdocGenerator trace].
  unfold lazy_instance, lazy_events in *.
  destruct Hw as [(Hg & Hn & Ht)|(Hg & rest & Ht & Hrest)]; rewrite Hg in *.
  - rewrite Hn in *. split; [done|]. exists [ev]. rewrite Ht. split; [done|].
    by repeat constructor.
  - split; [done|]. exists (rest ++ [ev]). rewrite Ht. split; [done|].
    apply Forall_app. split; [done|]. by repeat constructor.
Qed.

(** X9. Along any session that starts right after activation, the trace
    is empty or starts with the construction of instance 0, nothing is
    constructed afterwards, and every generation call of the session is
    made on that one instance. *)
Theorem session_uses_one_instance steps editor cfg docs :
  trace (session f g steps (initial_world editor cfg docs)) = [] ∨
  ∃ rest,
    trace (session f g steps (initial_world editor cfg docs))
      = NewJsdocGenerator 0 :: rest ∧
    Forall (λ e, is_new e = false ∧ on_instance 0 e) rest.
Proof.
  assert (session_state (session f g steps (initial_world editor cfg docs))) as H.
  { assert (session_state (initial_world editor cfg docs)) as H0 by (by left).
    revert H0. generalize (initial_world editor cfg docs).
    induction steps as [|s steps IH]; intros w Hw; [exact Hw|].
    apply IH. by apply host_step_session_state. }
  destruct H as [(_ & _ & Ht)|(_ & rest & Ht & Hrest)]; [by left | right; eauto].
Qed.

Lemma host_step_unfocused w s :
  activeTextEditor w = None → stays_unfocused s →
  activeTextEditor (host_step f g w s) = None ∧
  documents (host_step f g w s) = documents w ∧
  List.filter is_generation (trace (host_step f g w s))
    = List.filter is_generation (trace w).
Proof.
  intros Hw Hs. destruct s as [name|[e|]]; [|done|done].
  cbn [host_step].
  destruct (find_command name _) as [h|] eqn:E; [|done].
  destruct (registered_handler_effect name h w E) as (ev & docs & -> & _ & _ & Hnone).
  destruct (Hnone Hw) as [-> Hev].
  cbn [snd activeTextEditor documents trace]. repeat split; [done|].
  rewrite !List.filter_app, lazy_events_no_generation. simpl. rewrite Hev.
  by rewrite !app_nil_r.
Qed.


End SessionProperties.

(** The item offered in the sample document, accepted while the sample
    editor is active. *)
Lemma accepted_item_runs_generateJsdoc_witness :
  ∃ c, item_command (built_item (JsString.lit "  /** */") (mkPosition 1 5)) = Some c ∧
    (∀ e, activeTextEditor (initial_world (Some sample_editor) ∅ ∅) = Some e →
       trace (host_step add_line no_edits (initial_world (Some sample_editor) ∅ ∅)
                (Invoke (command c)))
         = [NewJsdocGenerator 0; CallGenerateJsdoc 0 (Some e)] ∧
       documents (host_step add_line no_edits (initial_world (Some sample_editor) ∅ ∅)
                    (Invoke (command c)))
         = add_line 0 (Some e) ∅) ∧
    (activeTextEditor (initial_world (Some sample_editor) ∅ ∅) = None →
       trace (host_step add_line no_edits (initial_world (Some sample_editor) ∅ ∅)
                (Invoke (command c)))
         = [NewJsdocGenerator 0; ShowErrorMessage ERROR_NO_EDITOR] ∧
       documents (host_step add_line no_edits (initial_world (Some sample_editor) ∅ ∅)
                    (Invoke (command c))) = ∅).
Proof.
  apply (accepted_item_runs_generateJsdoc add_line no_edits sample_document
           (mkPosition 1 5) (mkToken false) (mkContext None)
           (JsString.lit "  /** */")
           (built_item (JsString.lit "  /** */") (mkPosition 1 5))
           (initial_world (Some sample_editor) ∅ ∅));
    reflexivity.
Defined.

